(** * snakeLoggerFile: a shallow embedding of the logger and its file sinks

    The repository holds three snapshots of one Go package:
    - [Json]  : src/snakeLogger.go, first document (text sink and JSON sink);
    - [Basic] : src/snakeLogger.go, second document (text sink only, the
                record carries a single [Time] stamp);
    - [Named] : src/unnamed/part_000 (adds [ReportLevel], [SnakeName] and
                routing by snake name).

    Go strings are byte sequences: they are modelled by [string] (a list of
    8-bit [ascii]).  [int64] and [int] values are only stored and printed,
    never computed with, so they are modelled by [Z].  [SnakeLoggerLevel] is
    a [uint8] that is only compared, modelled by [N]. *)

From Stdlib Require Import ZArith NArith String Ascii List Lia DecimalString DecimalZ.
From stdpp Require Import base gmap strings list.

Open Scope string_scope.

(** ** The parts of the Go runtime and standard library the package uses *)
Module Go.

(** [strings.HasPrefix(s, prefix)]. *)
Definition HasPrefix (s prefix : string) : bool := String.prefix prefix s.

(** The slice expression [s[lo:]]: the run-time bounds check fails, and
    the goroutine panics, when [lo > len(s)]. *)
Definition sliceFrom (s : string) (lo : nat) : option string :=
  if (lo <=? String.length s)%nat
  then Some (substring lo (String.length s - lo) s)
  else None.

(** The verb [%v] (and [json.Marshal]) applied to a signed integer:
    decimal digits, with a leading minus sign when negative. *)
Definition FormatInt (z : Z) : string := NilZero.string_of_int (Z.to_int z).

(** A [time.Time], by the two observations [parseLog] makes of it. *)
Record Time := {
  UnixNano : Z;        (* t.UnixNano() *)
  Format : string      (* t.Format("2006-01-02T15:04:05.000000000") *)
}.

(** What a goroutine running [parseLog] does before it ends. *)
Inductive Outcome (R : Type) : Type :=
| Returned             (* the early [return]: nothing is built or sent *)
| Sent (r : R)         (* [writeChan <- r] *)
| Panicked.            (* run-time panic: slice bounds out of range *)
Arguments Returned {R}.
Arguments Sent {R} r.
Arguments Panicked {R}.

Definition sent {R} (o : Outcome R) : option R :=
  match o with Sent r => Some r | _ => None end.

(** *** Files and diagnostics *)

(** What the operating system does while one record is handled: every
    call succeeds, or exactly one of [os.OpenFile], [f.Write] (after
    [n] bytes went out) and [f.Close] returns the error [err]. *)
Inductive Fault : Type :=
| NoFault
| OpenFails (err : string)
| WriteFails (n : nat) (err : string)
| CloseFails (err : string).

(** File contents by path, and the lines sent to standard output
    ([fmt.Println]) and to standard error ([log.Fatal]). *)
Record World := {
  files : gmap string string;
  stdout : list string;
  stderr : list string
}.

(** How a consumer goroutine stands after the records delivered so far:
    blocked in [range c] waiting for the next one, returned from its
    function (the loop was left by [break]), or gone with the whole
    process ([log.Fatal] calls [os.Exit(1)]). *)
Inductive Status : Type :=
| Blocked
| Finished
| Exited (code : Z).

Definition Println (line : string) (w : World) : World :=
  {| files := files w; stdout := stdout w ++ [line]; stderr := stderr w |}.

(** [log.Fatal(err)]: the message goes to standard error; the caller
    then stops with [Exited 1]. *)
Definition Fatal (line : string) (w : World) : World :=
  {| files := files w; stdout := stdout w; stderr := stderr w ++ [line] |}.

Definition content (w : World) (path : string) : string :=
  default "" (files w !! path).

(** [os.OpenFile(path, O_APPEND|O_CREATE|O_WRONLY, 0644)]: on success
    the file exists afterwards (created empty when it did not). *)
Definition OpenFile (path : string) (io : Fault) (w : World) : World + string :=
  match io with
  | OpenFails err => inr err
  | _ => inl {| files := <[path := content w path]> (files w);
                stdout := stdout w; stderr := stderr w |}
  end.

Definition append (path data : string) (w : World) : World :=
  {| files := <[path := content w path ++ data]> (files w);
     stdout := stdout w; stderr := stderr w |}.

(** [f.Write(data)] on a file opened with [O_APPEND]: the bytes go to
    the end of the file; a failing write may leave a prefix behind. *)
Definition Write (path data : string) (io : Fault) (w : World)
  : World + (World * string) :=
  match io with
  | WriteFails n err => inr (append path (substring 0 n data) w, err)
  | _ => inl (append path data w)
  end.

(** [f.Close()]. *)
Definition Close (io : Fault) : option string :=
  match io with
  | CloseFails err => Some err
  | _ => None
  end.

(** [os.Getenv("HOME")] and the result of [os.Mkdir(basedir, 0755)]. *)
Inductive MkdirResult : Type :=
| MkdirOk
| MkdirExists                   (* errors.Is(err, os.ErrExist) *)
| MkdirError (err : string).

Record Env := {
  HOME : string;
  mkdir : MkdirResult
}.

End Go.
Import Go.

(** ** [encoding/json]: how [json.Marshal] writes strings and integers

    [json.Marshal] of a struct of strings and integers cannot fail: it
    writes the exported fields in declaration order, under their Go names
    (the structs carry no tags), strings through [appendString] with HTML
    escaping on.  The short escapes for backspace and form feed are those
    of Go 1.22 and later. *)
Module GoJSON.

Definition byte_of (a : ascii) : N := N_of_ascii a.
Definition chr (n : N) : ascii := ascii_of_N n.

Definition dquote : ascii := "034"%char.
Definition newline : ascii := "010"%char.
Definition backslash : ascii := "\"%char.

(** [hex[i]] for the table "0123456789abcdef". *)
Definition hex (i : N) : ascii :=
  if (i <? 10)%N then chr (48 + i) else chr (87 + i).

(** [htmlSafeSet[b]]: printable ASCII and DEL, but for the double
    quote, the backslash, and the three characters HTML cares about. *)
Definition htmlSafeSet (b : N) : bool :=
  (32 <=? b)%N && (b <? 128)%N
  && negb (b =? 34)%N && negb (b =? 38)%N && negb (b =? 60)%N
  && negb (b =? 62)%N && negb (b =? 92)%N.

(** The [switch b] of [appendString], for an ASCII byte outside
    [htmlSafeSet]. *)
Definition escapeByte (b : N) : string :=
  if ((b =? 92) || (b =? 34))%N then String backslash (String (chr b) "")
  else if (b =? 8)%N then "\b"
  else if (b =? 12)%N then "\f"
  else if (b =? 10)%N then "\n"
  else if (b =? 13)%N then "\r"
  else if (b =? 9)%N then "\t"
  else "\u00" ++ String (hex (N.shiftr b 4)) (String (hex (N.land b 15)) "").

Definition RuneError : N := 65533.   (* U+FFFD *)

Definition continuation (b : N) : bool := (128 <=? b)%N && (b <=? 191)%N.

(** The tables [first] and [acceptRanges] of [unicode/utf8], read for
    a leading byte [s0] in 0xC2..0xF4: the length of the encoding and
    the range the second byte must lie in. *)
Definition runeSize (s0 : N) : nat :=
  if (s0 <? 224)%N then 2%nat else if (s0 <? 240)%N then 3%nat else 4%nat.

Definition acceptLo (s0 : N) : N :=
  if (s0 =? 224)%N then 160%N else if (s0 =? 240)%N then 144%N else 128%N.

Definition acceptHi (s0 : N) : N :=
  if (s0 =? 237)%N then 159%N else if (s0 =? 244)%N then 143%N else 191%N.

(** [utf8.DecodeRuneInString]: the rune at the head of [s] and the
    number of bytes it takes; [(RuneError, 1)] for a byte that starts no
    well-formed encoding, [(RuneError, 0)] for the empty string. *)
Definition DecodeRuneInString (s : string) : N * nat :=
  match s with
  | "" => (RuneError, 0%nat)
  | String a0 t0 =>
    let s0 := byte_of a0 in
    if (s0 <? 128)%N then (s0, 1%nat)
    else if (s0 <? 194)%N || (244 <? s0)%N then (RuneError, 1%nat)
    else if (String.length s <? runeSize s0)%nat then (RuneError, 1%nat)
    else
      match t0 with
      | "" => (RuneError, 1%nat)
      | String a1 t1 =>
        let s1 := byte_of a1 in
        if (s1 <? acceptLo s0)%N || (acceptHi s0 <? s1)%N then (RuneError, 1%nat)
        else if (runeSize s0 <=? 2)%nat then
          (N.lor (N.shiftl (N.land s0 31) 6) (N.land s1 63), 2%nat)
        else
          match t1 with
          | "" => (RuneError, 1%nat)
          | String a2 t2 =>
            let s2 := byte_of a2 in
            if negb (continuation s2) then (RuneError, 1%nat)
            else if (runeSize s0 <=? 3)%nat then
              (N.lor (N.shiftl (N.land s0 15) 12)
                 (N.lor (N.shiftl (N.land s1 63) 6) (N.land s2 63)), 3%nat)
            else
              match t2 with
              | "" => (RuneError, 1%nat)
              | String a3 _ =>
                let s3 := byte_of a3 in
                if negb (continuation s3) then (RuneError, 1%nat)
                else
                  (N.lor (N.shiftl (N.land s0 7) 18)
                     (N.lor (N.shiftl (N.land s1 63) 12)
                        (N.lor (N.shiftl (N.land s2 63) 6) (N.land s3 63))),
                   4%nat)
              end
          end
      end
  end.

Definition skip (n : nat) (s : string) : string :=
  substring n (String.length s - n) s.

(** The loop of [appendString] over the rest [src[i:]] of the source;
    every turn consumes at least one byte, so [String.length src] turns
    are enough ([appendString_loop_fuel]). *)
Fixpoint appendString_loop (fuel : nat) (src : string) : string :=
  match fuel with
  | O => ""
  | S fuel' =>
    match src with
    | "" => ""
    | String a rest =>
      let b := byte_of a in
      if (b <? 128)%N then
        (if htmlSafeSet b then String a "" else escapeByte b)
          ++ appendString_loop fuel' rest
      else
        let '(c, size) := DecodeRuneInString (substring 0 4 src) in
        if (c =? RuneError)%N && (size =? 1)%nat then
          "\ufffd" ++ appendString_loop fuel' rest
        else if (c =? 8232)%N || (c =? 8233)%N then
          "\u202" ++ String (hex (N.land c 15)) (appendString_loop fuel' (skip size src))
        else
          substring 0 size src ++ appendString_loop fuel' (skip size src)
    end
  end.

(** [appendString(nil, src, true)]: the JSON string literal for [src]. *)
Definition appendString (src : string) : string :=
  String dquote (appendString_loop (String.length src) src ++ String dquote "").

(** One ["Name":value] member of an object. *)
Definition member (name value : string) : string :=
  String dquote (name ++ String dquote (":" ++ value)).

Definition stringMember (name value : string) : string :=
  member name (appendString value).

Definition intMember (name : string) (value : Z) : string :=
  member name (FormatInt value).

(** [{m1,m2,...}]. *)
Fixpoint members (ms : list string) : string :=
  match ms with
  | [] => ""
  | [m] => m
  | m :: ms' => m ++ "," ++ members ms'
  end.

Definition object (ms : list string) : string := "{" ++ members ms ++ "}".

End GoJSON.

(** ** Snapshot [Json]: src/snakeLogger.go, first document *)
Module Json.

Abbreviation SnakeLoggerLevel := N (only parsing).

Definition DebugLevel : SnakeLoggerLevel := 0.
Definition InfoLevel : SnakeLoggerLevel := 1.
Definition WarnLevel : SnakeLoggerLevel := 2.
Definition ErrorLevel : SnakeLoggerLevel := 3.
Definition NullLevel : SnakeLoggerLevel := 4.

Definition levelMap : gmap N string :=
  list_to_map [ (DebugLevel, "debug"); (InfoLevel, "info"); (WarnLevel, "warn");
                (ErrorLevel, "error"); (NullLevel, "null") ].

(** [levelMap[l]]: the zero value [""] for a missing key. *)
Definition levelName (l : SnakeLoggerLevel) : string := default "" (levelMap !! l).

Record LogData := {
  ID : string;
  Sev : string;
  Msg : string;
  Timestamp : string;
  UnixTimeStamp : Z;
  Turn : Z;
  Function : string
}.

Record SnakeLogger := {
  level : SnakeLoggerLevel;
  isNull : bool;
  id : string;
  currentFunc : string;
  currentTurn : Z
}.

Definition updateLogLevel (s : SnakeLogger) (l : SnakeLoggerLevel) : SnakeLogger :=
  {| level := l; isNull := isNull s; id := id s;
     currentFunc := currentFunc s; currentTurn := currentTurn s |}.

Definition UpdateID (s : SnakeLogger) (newid : string) : SnakeLogger :=
  {| level := level s; isNull := isNull s; id := newid;
     currentFunc := currentFunc s; currentTurn := currentTurn s |}.

Definition UpdateFunc (s : SnakeLogger) (f : string) : SnakeLogger :=
  {| level := level s; isNull := isNull s; id := id s;
     currentFunc := f; currentTurn := currentTurn s |}.

Definition ResetFunc (s : SnakeLogger) : SnakeLogger := UpdateFunc s "".

Definition UpdateTurn (s : SnakeLogger) (t : Z) : SnakeLogger :=
  {| level := level s; isNull := isNull s; id := id s;
     currentFunc := currentFunc s; currentTurn := t |}.

(** [parseLog]: the filter, the record, the GENERIC override, the send. *)
Definition parseLog (s : SnakeLogger) (lvl : SnakeLoggerLevel) (msg : string) (t : Time)
  : Outcome LogData :=
  if (lvl <? level s)%N then Returned            (* if s.level > level { return } *)
  else
    let timestamp := Format t in
    let unixstamp := UnixNano t in
    let thisLog :=
      {| Msg := msg; Timestamp := timestamp; UnixTimeStamp := unixstamp;
         ID := id s; Sev := levelName lvl;
         Turn := currentTurn s; Function := currentFunc s |} in
    if HasPrefix msg "GENERIC" then
      match sliceFrom msg 8 with                  (* thisLog.Msg = msg[8:] *)
      | None => Panicked
      | Some rest =>
        Sent {| Msg := rest; Timestamp := Timestamp thisLog;
                UnixTimeStamp := UnixTimeStamp thisLog;
                ID := ""; Sev := Sev thisLog;
                Turn := Turn thisLog; Function := Function thisLog |}
      end
    else Sent thisLog.

(** The exported methods stamp the call and start [parseLog] as a
    goroutine; the value is what that goroutine does.  The [f] variants
    take the message already rendered by [fmt.Sprintf]. *)
Definition Debugf (s : SnakeLogger) (msg : string) (now : Time) := parseLog s DebugLevel msg now.
Definition Infof (s : SnakeLogger) (msg : string) (now : Time) := parseLog s InfoLevel msg now.
Definition Errorf (s : SnakeLogger) (msg : string) (now : Time) := parseLog s ErrorLevel msg now.
Definition Debug (s : SnakeLogger) (m : string) (now : Time) := parseLog s DebugLevel m now.
Definition Info (s : SnakeLogger) (m : string) (now : Time) := parseLog s InfoLevel m now.
Definition Error (s : SnakeLogger) (m : string) (now : Time) := parseLog s ErrorLevel m now.

(** The exported logging methods, to quantify over "every logging call". *)
Inductive Method : Type := debugf | infof | errorf | debug | info | error.

Definition severity (m : Method) : SnakeLoggerLevel :=
  match m with
  | debugf | debug => DebugLevel
  | infof | info => InfoLevel
  | errorf | error => ErrorLevel
  end.

Definition call (m : Method) : SnakeLogger -> string -> Time -> Outcome LogData :=
  match m with
  | debugf => Debugf | infof => Infof | errorf => Errorf
  | debug => Debug | info => Info | error => Error
  end.

(** [for l, v := range levelMap { if v == level { s.level = l; break } }]
    over the entries in the order [order] the runtime happens to visit
    them. *)
Fixpoint rangeLevelMap (order : list (N * string)) (lvl : string) (s : SnakeLogger)
  : SnakeLogger :=
  match order with
  | [] => s
  | (l, v) :: order' =>
    if decide (v = lvl) then updateLogLevel s l else rangeLevelMap order' lvl s
  end.

(** A [range] over a map visits every entry once, in no fixed order. *)
Definition visits (order : list (N * string)) : Prop :=
  order ≡ₚ map_to_list levelMap.

Definition NewLogger (order : list (N * string)) (lvl : string) (index : N) : SnakeLogger :=
  rangeLevelMap order lvl
    {| level := InfoLevel; id := ""; isNull := false; currentFunc := ""; currentTurn := 0 |}.

(** [String]: [fmt.Sprintf("%v [%s] %s \n", l.UnixTimeStamp, l.Sev, l.Msg)]. *)
Definition LogData_String (l : LogData) : string :=
  FormatInt (UnixTimeStamp l) ++ " [" ++ Sev l ++ "] " ++ Msg l ++ " " ++ String GoJSON.newline "".

(** [StringWithID]. *)
Definition StringWithID (l : LogData) : string :=
  FormatInt (UnixTimeStamp l) ++ " [" ++ Sev l ++ "] " ++ ID l ++ " " ++ Msg l
    ++ " " ++ String GoJSON.newline "".

Definition Bytes (l : LogData) : string := LogData_String l.

(** [json.Marshal(m)]. *)
Definition Marshal (m : LogData) : string :=
  GoJSON.object
    [ GoJSON.stringMember "ID" (ID m);
      GoJSON.stringMember "Sev" (Sev m);
      GoJSON.stringMember "Msg" (Msg m);
      GoJSON.stringMember "Timestamp" (Timestamp m);
      GoJSON.intMember "UnixTimeStamp" (UnixTimeStamp m);
      GoJSON.intMember "Turn" (Turn m);
      GoJSON.stringMember "Function" (Function m) ].

(** The directory set-up both writers start with: [dir] from [HOME]
    (or ["/tmp"]), [basedir = dir + sub], [os.Mkdir]. *)
Definition setup (env : Env) (sub : string) (w : World) : string * World :=
  let '(dir, w1) :=
    if decide (HOME env = "")
    then ("/tmp", Println "cannot get home dir, sending to tmp" w)
    else (HOME env, w) in
  let basedir := dir ++ sub in
  let w2 :=
    match mkdir env with
    | MkdirError err => Println ("I don't understand this error:  " ++ err) w1
    | _ => w1
    end in
  (basedir, w2).

(** The file a record of the text sink goes to. *)
Definition filename (basedir : string) (m : LogData) : string :=
  if decide (ID m = "") then basedir ++ "/generic.log"
  else basedir ++ "/game-" ++ ID m ++ ".log".

(** The loop [for m := range c] of [writeToFile], over the records the
    channel has delivered, each with what the system does meanwhile. *)
Fixpoint writeToFile_loop (basedir : string) (c : list (LogData * Fault)) (w : World)
  : Status * World :=
  match c with
  | [] => (Blocked, w)
  | (m, io) :: c' =>
    let filename := filename basedir m in
    match OpenFile filename io w with
    | inr err => (Exited 1, Fatal err w)                 (* log.Fatal(err) *)
    | inl w1 =>
      match Write filename (Bytes m) io w1 with
      | inr (w2, err) => (Finished, Println err w2)      (* fmt.Println(err); break *)
      | inl w2 =>
        let w3 := match Close io with
                  | Some cerr => Println cerr w2
                  | None => w2
                  end in
        writeToFile_loop basedir c' w3
      end
    end
  end.

Definition writeToFile (env : Env) (c : list (LogData * Fault)) (w : World)
  : Status * World :=
  let '(basedir, w1) := setup env "/battlesnakeLogs" w in
  writeToFile_loop basedir c w1.

(** The loop of [writeJSONToFile]: one file for every record. *)
Fixpoint writeJSONToFile_loop (filename : string) (c : list (LogData * Fault)) (w : World)
  : Status * World :=
  match c with
  | [] => (Blocked, w)
  | (m, io) :: c' =>
    let jsoncontent := Marshal m in                      (* err is always nil *)
    match OpenFile filename io w with
    | inr err => (Finished, Println err w)               (* fmt.Println(err); break *)
    | inl w1 =>
      match Write filename jsoncontent io w1 with
      | inr (w2, err) => (Finished, Println err w2)
      | inl w2 =>
        let w3 := match Close io with
                  | Some cerr => Println cerr w2
                  | None => w2
                  end in
        writeJSONToFile_loop filename c' w3
      end
    end
  end.

Definition writeJSONToFile (env : Env) (c : list (LogData * Fault)) (w : World)
  : Status * World :=
  let '(basedir, w1) := setup env "/battlesnakeJSON" w in
  let filename := basedir ++ "/battlesnake.json" in
  writeJSONToFile_loop filename c w1.

End Json.

(** ** Snapshot [Basic]: src/snakeLogger.go, second document *)
Module Basic.

Abbreviation SnakeLoggerLevel := N (only parsing).

Definition DebugLevel : SnakeLoggerLevel := 0.
Definition InfoLevel : SnakeLoggerLevel := 1.
Definition WarnLevel : SnakeLoggerLevel := 2.
Definition ErrorLevel : SnakeLoggerLevel := 3.
Definition NullLevel : SnakeLoggerLevel := 4.

Definition levelMap : gmap N string :=
  list_to_map [ (DebugLevel, "debug"); (InfoLevel, "info"); (WarnLevel, "warn");
                (ErrorLevel, "error"); (NullLevel, "null") ].

Definition levelName (l : SnakeLoggerLevel) : string := default "" (levelMap !! l).

Record LogData := {
  ID : string;
  Sev : string;
  Msg : string;
  Time : Z
}.

Record SnakeLogger := {
  level : SnakeLoggerLevel;
  isNull : bool;
  id : string
}.

Definition updateLogLevel (s : SnakeLogger) (l : SnakeLoggerLevel) : SnakeLogger :=
  {| level := l; isNull := isNull s; id := id s |}.

Definition UpdateID (s : SnakeLogger) (newid : string) : SnakeLogger :=
  {| level := level s; isNull := isNull s; id := newid |}.

Definition parseLog (s : SnakeLogger) (lvl : SnakeLoggerLevel) (msg : string) (stamp : Z)
  : Outcome LogData :=
  if (lvl <? level s)%N then Returned            (* if s.level > level { return } *)
  else
    let thisLog :=
      {| Msg := msg; Time := stamp; ID := id s; Sev := levelName lvl |} in
    if HasPrefix msg "GENERIC" then
      match sliceFrom msg 8 with                  (* thisLog.Msg = msg[8:] *)
      | None => Panicked
      | Some rest =>
        Sent {| Msg := rest; Time := Time thisLog; ID := ""; Sev := Sev thisLog |}
      end
    else Sent thisLog.

(** Here [now] is [time.Now().UnixNano()]. *)
Definition Debugf (s : SnakeLogger) (msg : string) (now : Z) := parseLog s DebugLevel msg now.
Definition Infof (s : SnakeLogger) (msg : string) (now : Z) := parseLog s InfoLevel msg now.
Definition Errorf (s : SnakeLogger) (msg : string) (now : Z) := parseLog s ErrorLevel msg now.
Definition Debug (s : SnakeLogger) (m : string) (now : Z) := parseLog s DebugLevel m now.
Definition Info (s : SnakeLogger) (m : string) (now : Z) := parseLog s InfoLevel m now.
Definition Error (s : SnakeLogger) (m : string) (now : Z) := parseLog s ErrorLevel m now.

Inductive Method : Type := debugf | infof | errorf | debug | info | error.

Definition severity (m : Method) : SnakeLoggerLevel :=
  match m with
  | debugf | debug => DebugLevel
  | infof | info => InfoLevel
  | errorf | error => ErrorLevel
  end.

Definition call (m : Method) : SnakeLogger -> string -> Z -> Outcome LogData :=
  match m with
  | debugf => Debugf | infof => Infof | errorf => Errorf
  | debug => Debug | info => Info | error => Error
  end.

Fixpoint rangeLevelMap (order : list (N * string)) (lvl : string) (s : SnakeLogger)
  : SnakeLogger :=
  match order with
  | [] => s
  | (l, v) :: order' =>
    if decide (v = lvl) then updateLogLevel s l else rangeLevelMap order' lvl s
  end.

Definition visits (order : list (N * string)) : Prop :=
  order ≡ₚ map_to_list levelMap.

Definition NewLogger (order : list (N * string)) (lvl : string) (index : N) : SnakeLogger :=
  rangeLevelMap order lvl {| level := InfoLevel; id := ""; isNull := false |}.

(** [String]: [fmt.Sprintf("%v [%s] %s \n", l.Time, l.Sev, l.Msg)]. *)
Definition LogData_String (l : LogData) : string :=
  FormatInt (Time l) ++ " [" ++ Sev l ++ "] " ++ Msg l ++ " " ++ String GoJSON.newline "".

Definition StringWithID (l : LogData) : string :=
  FormatInt (Time l) ++ " [" ++ Sev l ++ "] " ++ ID l ++ " " ++ Msg l
    ++ " " ++ String GoJSON.newline "".

Definition Bytes (l : LogData) : string := LogData_String l.

Definition setup (env : Env) (sub : string) (w : World) : string * World :=
  let '(dir, w1) :=
    if decide (HOME env = "")
    then ("/tmp", Println "cannot get home dir, sending to tmp" w)
    else (HOME env, w) in
  let basedir := dir ++ sub in
  let w2 :=
    match mkdir env with
    | MkdirError err => Println ("I don't understand this error:  " ++ err) w1
    | _ => w1
    end in
  (basedir, w2).

Definition filename (basedir : string) (m : LogData) : string :=
  if decide (ID m = "") then basedir ++ "/generic.log"
  else basedir ++ "/game-" ++ ID m ++ ".log".

Fixpoint writeToFile_loop (basedir : string) (c : list (LogData * Fault)) (w : World)
  : Status * World :=
  match c with
  | [] => (Blocked, w)
  | (m, io) :: c' =>
    let filename := filename basedir m in
    match OpenFile filename io w with
    | inr err => (Exited 1, Fatal err w)                 (* log.Fatal(err) *)
    | inl w1 =>
      match Write filename (Bytes m) io w1 with
      | inr (w2, err) => (Finished, Println err w2)      (* fmt.Println(err); break *)
      | inl w2 =>
        let w3 := match Close io with
                  | Some cerr => Println cerr w2
                  | None => w2
                  end in
        writeToFile_loop basedir c' w3
      end
    end
  end.

Definition writeToFile (env : Env) (c : list (LogData * Fault)) (w : World)
  : Status * World :=
  let '(basedir, w1) := setup env "/battlesnakeLogs" w in
  writeToFile_loop basedir c w1.

End Basic.

(** ** Snapshot [Named]: src/unnamed/part_000 *)
Module Named.

Abbreviation SnakeLoggerLevel := N (only parsing).

Definition DebugLevel : SnakeLoggerLevel := 0.
Definition InfoLevel : SnakeLoggerLevel := 1.
Definition WarnLevel : SnakeLoggerLevel := 2.
Definition ErrorLevel : SnakeLoggerLevel := 3.
Definition ReportLevel : SnakeLoggerLevel := 4.
Definition NullLevel : SnakeLoggerLevel := 5.

Definition levelMap : gmap N string :=
  list_to_map [ (DebugLevel, "debug"); (InfoLevel, "info"); (WarnLevel, "warn");
                (ErrorLevel, "error"); (NullLevel, "null"); (ReportLevel, "report") ].

Definition levelName (l : SnakeLoggerLevel) : string := default "" (levelMap !! l).

Record LogData := {
  ID : string;
  Sev : string;
  Msg : string;
  Timestamp : string;
  UnixTimeStamp : Z;
  Turn : Z;
  Function : string;
  SnakeName : string
}.

Record SnakeLogger := {
  level : SnakeLoggerLevel;
  isNull : bool;
  id : string;
  currentFunc : string;
  currentTurn : Z;
  name : string
}.

Definition updateLogLevel (s : SnakeLogger) (l : SnakeLoggerLevel) : SnakeLogger :=
  {| level := l; isNull := isNull s; id := id s;
     currentFunc := currentFunc s; currentTurn := currentTurn s; name := name s |}.

Definition UpdateID (s : SnakeLogger) (newid : string) : SnakeLogger :=
  {| level := level s; isNull := isNull s; id := newid;
     currentFunc := currentFunc s; currentTurn := currentTurn s; name := name s |}.

Definition UpdateFunc (s : SnakeLogger) (f : string) : SnakeLogger :=
  {| level := level s; isNull := isNull s; id := id s;
     currentFunc := f; currentTurn := currentTurn s; name := name s |}.

Definition ResetFunc (s : SnakeLogger) : SnakeLogger := UpdateFunc s "".

Definition UpdateTurn (s : SnakeLogger) (t : Z) : SnakeLogger :=
  {| level := level s; isNull := isNull s; id := id s;
     currentFunc := currentFunc s; currentTurn := t; name := name s |}.

Definition UpdateName (s : SnakeLogger) (n : string) : SnakeLogger :=
  {| level := level s; isNull := isNull s; id := id s;
     currentFunc := currentFunc s; currentTurn := currentTurn s; name := n |}.

Definition parseLog (s : SnakeLogger) (lvl : SnakeLoggerLevel) (msg : string) (t : Time)
  : Outcome LogData :=
  if (lvl <? level s)%N then Returned            (* if s.level > level { return } *)
  else
    let timestamp := Format t in
    let unixstamp := UnixNano t in
    let thisLog :=
      {| Msg := msg; Timestamp := timestamp; UnixTimeStamp := unixstamp;
         ID := id s; Sev := levelName lvl;
         Turn := currentTurn s; Function := currentFunc s; SnakeName := name s |} in
    if HasPrefix msg "GENERIC" then
      match sliceFrom msg 8 with                  (* thisLog.Msg = msg[8:] *)
      | None => Panicked
      | Some rest =>
        Sent {| Msg := rest; Timestamp := Timestamp thisLog;
                UnixTimeStamp := UnixTimeStamp thisLog;
                ID := ""; Sev := Sev thisLog;
                Turn := Turn thisLog; Function := Function thisLog;
                SnakeName := SnakeName thisLog |}
      end
    else Sent thisLog.

Definition Debugf (s : SnakeLogger) (msg : string) (now : Time) := parseLog s DebugLevel msg now.
Definition Infof (s : SnakeLogger) (msg : string) (now : Time) := parseLog s InfoLevel msg now.
Definition Warnf (s : SnakeLogger) (msg : string) (now : Time) := parseLog s WarnLevel msg now.
Definition Errorf (s : SnakeLogger) (msg : string) (now : Time) := parseLog s ErrorLevel msg now.
Definition Reportf (s : SnakeLogger) (msg : string) (now : Time) := parseLog s ReportLevel msg now.
Definition Debug (s : SnakeLogger) (m : string) (now : Time) := parseLog s DebugLevel m now.
Definition Info (s : SnakeLogger) (m : string) (now : Time) := parseLog s InfoLevel m now.
Definition Warn (s : SnakeLogger) (m : string) (now : Time) := parseLog s WarnLevel m now.
Definition Error (s : SnakeLogger) (m : string) (now : Time) := parseLog s ErrorLevel m now.
Definition Report (s : SnakeLogger) (m : string) (now : Time) := parseLog s ReportLevel m now.

Inductive Method : Type :=
| debugf | infof | warnf | errorf | reportf
| debug | info | warn | error | report.

Definition severity (m : Method) : SnakeLoggerLevel :=
  match m with
  | debugf | debug => DebugLevel
  | infof | info => InfoLevel
  | warnf | warn => WarnLevel
  | errorf | error => ErrorLevel
  | reportf | report => ReportLevel
  end.

Definition call (m : Method) : SnakeLogger -> string -> Time -> Outcome LogData :=
  match m with
  | debugf => Debugf | infof => Infof | warnf => Warnf
  | errorf => Errorf | reportf => Reportf
  | debug => Debug | info => Info | warn => Warn
  | error => Error | report => Report
  end.

Fixpoint rangeLevelMap (order : list (N * string)) (lvl : string) (s : SnakeLogger)
  : SnakeLogger :=
  match order with
  | [] => s
  | (l, v) :: order' =>
    if decide (v = lvl) then updateLogLevel s l else rangeLevelMap order' lvl s
  end.

Definition visits (order : list (N * string)) : Prop :=
  order ≡ₚ map_to_list levelMap.

Definition NewLogger (order : list (N * string)) (lvl : string) (index : N) : SnakeLogger :=
  rangeLevelMap order lvl
    {| level := InfoLevel; id := ""; isNull := false;
       currentFunc := ""; currentTurn := 0; name := "" |}.

(** [String]: [fmt.Sprintf("%s %s (%v) <%s> [%s] %s \n", l.Timestamp,
    l.ID, l.Turn, l.Function, l.Sev, l.Msg)]. *)
Definition LogData_String (l : LogData) : string :=
  Timestamp l ++ " " ++ ID l ++ " (" ++ FormatInt (Turn l) ++ ") <" ++ Function l
    ++ "> [" ++ Sev l ++ "] " ++ Msg l ++ " " ++ String GoJSON.newline "".

Definition Bytes (l : LogData) : string := LogData_String l.

Definition setup (env : Env) (sub : string) (w : World) : string * World :=
  let '(dir, w1) :=
    if decide (HOME env = "")
    then ("/tmp", Println "cannot get home dir, sending to tmp" w)
    else (HOME env, w) in
  let basedir := dir ++ sub in
  let w2 :=
    match mkdir env with
    | MkdirError err => Println ("I don't understand this error:  " ++ err) w1
    | _ => w1
    end in
  (basedir, w2).

(** The file a record goes to: by snake name.  The first branch joins
    [basedir] and ["generic.log"] with no separator between them;
    the second is [fmt.Sprintf("%s/%s.log", basedir, m.SnakeName)]. *)
Definition filename (basedir : string) (m : LogData) : string :=
  if decide (SnakeName m = "") then basedir ++ "generic.log"
  else basedir ++ "/" ++ SnakeName m ++ ".log".

Fixpoint writeToFile_loop (basedir : string) (c : list (LogData * Fault)) (w : World)
  : Status * World :=
  match c with
  | [] => (Blocked, w)
  | (m, io) :: c' =>
    let filename := filename basedir m in
    match OpenFile filename io w with
    | inr err => (Exited 1, Fatal err w)                 (* log.Fatal(err) *)
    | inl w1 =>
      match Write filename (Bytes m) io w1 with
      | inr (w2, err) => (Finished, Println err w2)      (* fmt.Println(err); break *)
      | inl w2 =>
        let w3 := match Close io with
                  | Some cerr => Println cerr w2
                  | None => w2
                  end in
        writeToFile_loop basedir c' w3
      end
    end
  end.

Definition writeToFile (env : Env) (c : list (LogData * Fault)) (w : World)
  : Status * World :=
  let '(basedir, w1) := setup env "/battlesnakeLogs" w in
  writeToFile_loop basedir c w1.

End Named.

(** ** Definitions used to state the properties *)

(** The precondition of the slice [msg[8:]]: a message that starts with
    GENERIC has at least the eight bytes the slice skips. *)
Definition generic_ok (msg : string) : Prop :=
  HasPrefix msg "GENERIC" = true -> (8 <= String.length msg)%nat.

(** Sample values for the concrete runs below. *)
Module Sample.

Definition now : Time :=
  {| UnixNano := 1700000000123456789; Format := "2023-11-14T22:13:20.123456789" |}.

Definition env : Env := {| HOME := "/home/snake"; mkdir := MkdirExists |}.

Definition empty : World := {| files := ∅; stdout := []; stderr := [] |}.

(** Loggers as [NewLogger] returns them, then given a game id. *)
Definition jsonInfo : Json.SnakeLogger :=
  Json.UpdateID (Json.NewLogger (map_to_list Json.levelMap) "info" 0) "abc".
Definition basicInfo : Basic.SnakeLogger :=
  Basic.UpdateID (Basic.NewLogger (map_to_list Basic.levelMap) "info" 0) "abc".
Definition namedInfo : Named.SnakeLogger :=
  Named.UpdateID (Named.NewLogger (map_to_list Named.levelMap) "info" 0) "abc".

(** Records as [parseLog] builds them. *)
Definition jsonRecord : Json.LogData :=
  {| Json.ID := "abc"; Json.Sev := "error"; Json.Msg := "boom";
     Json.Timestamp := "2023-11-14T22:13:20.123456789";
     Json.UnixTimeStamp := 1700000000123456789;
     Json.Turn := 3; Json.Function := "move" |}.

Definition jsonGeneric : Json.LogData :=
  {| Json.ID := ""; Json.Sev := "info"; Json.Msg := "started";
     Json.Timestamp := "2023-11-14T22:13:21.000000000";
     Json.UnixTimeStamp := 1700000001000000000;
     Json.Turn := 0; Json.Function := "" |}.

Definition basicRecord : Basic.LogData :=
  {| Basic.ID := "abc"; Basic.Sev := "error"; Basic.Msg := "boom";
     Basic.Time := 1700000000123456789 |}.

Definition namedGeneric : Named.LogData :=
  {| Named.ID := "abc"; Named.Sev := "error"; Named.Msg := "boom";
     Named.Timestamp := "2023-11-14T22:13:20.123456789";
     Named.UnixTimeStamp := 1700000000123456789;
     Named.Turn := 3; Named.Function := "move"; Named.SnakeName := "" |}.

End Sample.

(** Whether the byte [a] occurs in [s]. *)
Fixpoint occurs (a : ascii) (s : string) : bool :=
  match s with
  | "" => false
  | String b s' => if Ascii.eqb a b then true else occurs a s'
  end.

(** The last byte of [s]. *)
Fixpoint lastByte (s : string) : option ascii :=
  match s with
  | "" => None
  | String a "" => Some a
  | String _ s' => lastByte s'
  end.

(** A decimal numeral read back as an integer. *)
Definition ParseInt (s : string) : option Z :=
  option_map Z.of_int (NilZero.int_of_string s).

(** The level the [range] loop stops at, if any. *)
Fixpoint firstMatch (order : list (N * string)) (v : string) : option N :=
  match order with
  | [] => None
  | (l, v') :: order' => if decide (v' = v) then Some l else firstMatch order' v
  end.

(** ** The common shape of the consumer loops

    The four loops differ in the file they pick, the bytes they write and
    what they do when the file cannot be opened; [sinkLoop] is their
    common shape, and each loop above is shown below to be an instance of
    it. *)
Section SinkLoop.

Context {R : Type}.
Variable route : R -> string.
Variable bytes : R -> string.
Variable openFailed : string -> World -> Status * World.

Fixpoint sinkLoop (c : list (R * Fault)) (w : World) : Status * World :=
  match c with
  | [] => (Blocked, w)
  | (m, io) :: c' =>
    match OpenFile (route m) io w with
    | inr err => openFailed err w
    | inl w1 =>
      match Write (route m) (bytes m) io w1 with
      | inr (w2, err) => (Finished, Println err w2)
      | inl w2 =>
        sinkLoop c' (match Close io with Some cerr => Println cerr w2 | None => w2 end)
      end
    end
  end.

(** The faults a loop gets over: none, or a failing [Close]. *)
Definition survivable (io : Fault) : bool :=
  match io with NoFault | CloseFails _ => true | _ => false end.

Definition quiet (c : list (R * Fault)) : Prop :=
  Forall (fun x => survivable (snd x) = true) c.

(** The world after a record went to [path] without a fatal fault. *)
Definition handled (path data : string) (io : Fault) (w : World) : World :=
  let w2 := append path data
              {| files := <[path := content w path]> (files w);
                 stdout := stdout w; stderr := stderr w |} in
  match Close io with Some cerr => Println cerr w2 | None => w2 end.

End SinkLoop.

Definition fatal (err : string) (w : World) : Status * World := (Exited 1, Fatal err w).
Definition giveUp (err : string) (w : World) : Status * World := (Finished, Println err w).

(** The directory a sink works in. *)
Definition basedirOf (env : Env) (sub : string) : string :=
  (if decide (HOME env = "") then "/tmp" else HOME env) ++ sub.

(** ** What a run of a consumer loop adds to a file *)
Section Routed.

Context {R : Type}.
Variable route : R -> string.
Variable bytes : R -> string.

(** The bytes of the records of [c] that go to [path], in the order of
    the channel. *)
Fixpoint routed (path : string) (c : list (R * Fault)) : string :=
  match c with
  | [] => ""
  | (m, _) :: c' =>
    (if decide (route m = path) then bytes m else "") ++ routed path c'
  end.

End Routed.

(** The same deliveries, with every failing [Close] turned into a
    faultless one. *)
Definition calm {R : Type} (c : list (R * Fault)) : list (R * Fault) :=
  map (fun x => (fst x, match snd x with CloseFails _ => NoFault | io => io end)) c.

(** The calls an owner makes to change a logger's context, to speak of
    any sequence of them. *)
Inductive JsonUpdate : Type :=
| JsonUpdateID (newid : string)
| JsonUpdateFunc (f : string)
| JsonResetFunc
| JsonUpdateTurn (t : Z).

Definition JsonApply (s : Json.SnakeLogger) (u : JsonUpdate) : Json.SnakeLogger :=
  match u with
  | JsonUpdateID newid => Json.UpdateID s newid
  | JsonUpdateFunc f => Json.UpdateFunc s f
  | JsonResetFunc => Json.ResetFunc s
  | JsonUpdateTurn t => Json.UpdateTurn s t
  end.

Inductive NamedUpdate : Type :=
| NamedUpdateID (newid : string)
| NamedUpdateFunc (f : string)
| NamedResetFunc
| NamedUpdateTurn (t : Z)
| NamedUpdateName (n : string).

Definition NamedApply (s : Named.SnakeLogger) (u : NamedUpdate) : Named.SnakeLogger :=
  match u with
  | NamedUpdateID newid => Named.UpdateID s newid
  | NamedUpdateFunc f => Named.UpdateFunc s f
  | NamedResetFunc => Named.ResetFunc s
  | NamedUpdateTurn t => Named.UpdateTurn s t
  | NamedUpdateName n => Named.UpdateName s n
  end.

(** Context calls that leave the id, respectively the function label,
    as it is. *)
Definition keepsID (u : NamedUpdate) : bool :=
  match u with NamedUpdateID _ => false | _ => true end.

Definition keepsFunc (u : NamedUpdate) : bool :=
  match u with NamedUpdateFunc _ | NamedResetFunc => false | _ => true end.

(** A routing key with no slash in it: the path built from it names an
    entry of the directory itself, with nothing to resolve on the way. *)
Definition plain (key : string) : bool := negb (occurs "/"%char key).

(** Whether the directory is there once [os.Mkdir] has returned: it was
    made, or it existed. *)
Definition created (r : MkdirResult) : bool :=
  match r with MkdirError _ => false | _ => true end.

(** The bytes of all the records of [c], in the order of the channel. *)
Fixpoint written {R : Type} (bytes : R -> string) (c : list (R * Fault)) : string :=
  match c with
  | [] => ""
  | (m, _) :: c' => bytes m ++ written bytes c'
  end.

(** * Facts about the Go primitives *)
Section GoFacts.

Lemma substring_all (s : string) : substring 0 (String.length s) s = s.
Proof. induction s as [|a s IH]; simpl; [reflexivity | now rewrite IH]. Qed.

Lemma length_app (p r : string) :
  String.length (p ++ r) = (String.length p + String.length r)%nat.
Proof. induction p as [|a p IH]; simpl; [reflexivity | now rewrite IH]. Qed.

Lemma substring_skip_app (p r : string) :
  substring (String.length p) (String.length r) (p ++ r) = r.
Proof. induction p as [|a p IH]; simpl; [apply substring_all | exact IH]. Qed.

Lemma sliceFrom_app (p r : string) : sliceFrom (p ++ r) (String.length p) = Some r.
Proof.
  unfold sliceFrom. rewrite length_app.
  destruct (Nat.leb_spec (String.length p) (String.length p + String.length r)) as [_|H];
    [|lia].
  replace (String.length p + String.length r - String.length p)%nat
    with (String.length r) by lia.
  now rewrite substring_skip_app.
Qed.

Lemma sliceFrom_None (s : string) (lo : nat) :
  sliceFrom s lo = None <-> (String.length s < lo)%nat.
Proof.
  unfold sliceFrom. destruct (Nat.leb_spec lo (String.length s)); split;
    intros; try discriminate; try lia; reflexivity.
Qed.

Lemma HasPrefix_app (p r : string) : HasPrefix (p ++ r) p = true.
Proof.
  unfold HasPrefix. induction p as [|a p IH]; simpl.
  - now destruct r.
  - destruct (ascii_dec a a); [exact IH | congruence].
Qed.

Lemma HasPrefix_inv (s p : string) : HasPrefix s p = true -> exists r, s = p ++ r.
Proof.
  unfold HasPrefix. revert s. induction p as [|a p IH]; intros s H.
  - now exists s.
  - destruct s as [|b s]; simpl in H; [discriminate|].
    destruct (ascii_dec a b) as [->|]; [|discriminate].
    destruct (IH s H) as [r ->]. now exists r.
Qed.

(** The only message that starts with GENERIC and is too short for
    [msg[8:]] is GENERIC itself. *)
Lemma generic_short (msg : string) :
  HasPrefix msg "GENERIC" = true -> (String.length msg < 8)%nat -> msg = "GENERIC".
Proof.
  intros Hp Hl. destruct (HasPrefix_inv _ _ Hp) as [r ->].
  rewrite length_app in Hl. simpl in Hl.
  destruct r; [reflexivity | simpl in Hl; lia].
Qed.

Lemma generic_long (msg : string) :
  HasPrefix msg "GENERIC" = true -> msg <> "GENERIC" ->
  exists sep rest, msg = "GENERIC" ++ String sep rest.
Proof.
  intros Hp Hne. destruct (HasPrefix_inv _ _ Hp) as [r ->].
  destruct r as [|sep rest]; [now destruct Hne | eauto].
Qed.

Lemma sliceFrom_generic (sep : ascii) (rest : string) :
  sliceFrom ("GENERIC" ++ String sep rest) 8 = Some rest.
Proof. exact (sliceFrom_app (String.append "GENERIC" (String sep "")) rest). Qed.

End GoFacts.

(** * The logger: filter, GENERIC override, panic *)

(** Splits a [parseLog] on its filter, its prefix test and its slice. *)
Ltac parse_cases s lvl msg :=
  let Hl := fresh "Hlvl" in
  let Hp := fresh "Hpre" in
  let Hs := fresh "Hslice" in
  destruct (N.ltb_spec lvl s) as [Hl|Hl];
  [| destruct (HasPrefix msg "GENERIC") eqn:Hp;
     [ destruct (sliceFrom msg 8) as [?rest|] eqn:Hs |] ].

Section ParseLog.

Lemma Json_parseLog_panics s lvl msg t :
  Json.parseLog s lvl msg t = Panicked <-> (Json.level s <= lvl)%N /\ msg = "GENERIC".
Proof.
  unfold Json.parseLog. parse_cases (Json.level s) lvl msg;
    (split; [intros H | intros [Hle ->]]);
    try discriminate H; try lia; try reflexivity;
    try (vm_compute in Hslice; discriminate Hslice);
    try (vm_compute in Hpre; discriminate Hpre).
  split; [assumption|].
  apply generic_short; [assumption | now apply sliceFrom_None].
Qed.

Lemma Basic_parseLog_panics s lvl msg t :
  Basic.parseLog s lvl msg t = Panicked <-> (Basic.level s <= lvl)%N /\ msg = "GENERIC".
Proof.
  unfold Basic.parseLog. parse_cases (Basic.level s) lvl msg;
    (split; [intros H | intros [Hle ->]]);
    try discriminate H; try lia; try reflexivity;
    try (vm_compute in Hslice; discriminate Hslice);
    try (vm_compute in Hpre; discriminate Hpre).
  split; [assumption|].
  apply generic_short; [assumption | now apply sliceFrom_None].
Qed.

Lemma Named_parseLog_panics s lvl msg t :
  Named.parseLog s lvl msg t = Panicked <-> (Named.level s <= lvl)%N /\ msg = "GENERIC".
Proof.
  unfold Named.parseLog. parse_cases (Named.level s) lvl msg;
    (split; [intros H | intros [Hle ->]]);
    try discriminate H; try lia; try reflexivity;
    try (vm_compute in Hslice; discriminate Hslice);
    try (vm_compute in Hpre; discriminate Hpre).
  split; [assumption|].
  apply generic_short; [assumption | now apply sliceFrom_None].
Qed.

(** Below the threshold nothing is built and nothing is sent. *)
Lemma Json_parseLog_returns s lvl msg t :
  Json.parseLog s lvl msg t = Returned <-> (lvl < Json.level s)%N.
Proof.
  unfold Json.parseLog. parse_cases (Json.level s) lvl msg; split;
    try discriminate; try lia; reflexivity.
Qed.

Lemma Basic_parseLog_returns s lvl msg t :
  Basic.parseLog s lvl msg t = Returned <-> (lvl < Basic.level s)%N.
Proof.
  unfold Basic.parseLog. parse_cases (Basic.level s) lvl msg; split;
    try discriminate; try lia; reflexivity.
Qed.

Lemma Named_parseLog_returns s lvl msg t :
  Named.parseLog s lvl msg t = Returned <-> (lvl < Named.level s)%N.
Proof.
  unfold Named.parseLog. parse_cases (Named.level s) lvl msg; split;
    try discriminate; try lia; reflexivity.
Qed.

(** The filtering rule, for every message but the one that panics. *)
Lemma Json_parseLog_sends s lvl msg t :
  msg <> "GENERIC" ->
  (exists r, Json.parseLog s lvl msg t = Sent r) <-> (Json.level s <= lvl)%N.
Proof.
  intros Hne. split.
  - intros [r Hr]. destruct (N.le_gt_cases (Json.level s) lvl) as [|Hlt]; [assumption|].
    apply Json_parseLog_returns with (msg := msg) (t := t) in Hlt. congruence.
  - intros Hle. destruct (Json.parseLog s lvl msg t) as [|r|] eqn:E; [| eauto |].
    + apply Json_parseLog_returns in E. lia.
    + apply Json_parseLog_panics in E. tauto.
Qed.

Lemma Basic_parseLog_sends s lvl msg t :
  msg <> "GENERIC" ->
  (exists r, Basic.parseLog s lvl msg t = Sent r) <-> (Basic.level s <= lvl)%N.
Proof.
  intros Hne. split.
  - intros [r Hr]. destruct (N.le_gt_cases (Basic.level s) lvl) as [|Hlt]; [assumption|].
    apply Basic_parseLog_returns with (msg := msg) (t := t) in Hlt. congruence.
  - intros Hle. destruct (Basic.parseLog s lvl msg t) as [|r|] eqn:E; [| eauto |].
    + apply Basic_parseLog_returns in E. lia.
    + apply Basic_parseLog_panics in E. tauto.
Qed.

Lemma Named_parseLog_sends s lvl msg t :
  msg <> "GENERIC" ->
  (exists r, Named.parseLog s lvl msg t = Sent r) <-> (Named.level s <= lvl)%N.
Proof.
  intros Hne. split.
  - intros [r Hr]. destruct (N.le_gt_cases (Named.level s) lvl) as [|Hlt]; [assumption|].
    apply Named_parseLog_returns with (msg := msg) (t := t) in Hlt. congruence.
  - intros Hle. destruct (Named.parseLog s lvl msg t) as [|r|] eqn:E; [| eauto |].
    + apply Named_parseLog_returns in E. lia.
    + apply Named_parseLog_panics in E. tauto.
Qed.

(** No exported method logs at [NullLevel]: a logger set to it is mute. *)
Lemma Json_severity_below_null m : (Json.severity m < Json.NullLevel)%N.
Proof. destruct m; vm_compute; reflexivity. Qed.

Lemma Basic_severity_below_null m : (Basic.severity m < Basic.NullLevel)%N.
Proof. destruct m; vm_compute; reflexivity. Qed.

Lemma Named_severity_below_null m : (Named.severity m < Named.NullLevel)%N.
Proof. destruct m; vm_compute; reflexivity. Qed.

Lemma Json_call_parseLog m s msg t :
  Json.call m s msg t = Json.parseLog s (Json.severity m) msg t.
Proof. now destruct m. Qed.

Lemma Basic_call_parseLog m s msg t :
  Basic.call m s msg t = Basic.parseLog s (Basic.severity m) msg t.
Proof. now destruct m. Qed.

Lemma Named_call_parseLog m s msg t :
  Named.call m s msg t = Named.parseLog s (Named.severity m) msg t.
Proof. now destruct m. Qed.

Lemma Json_null_logger_mute m s msg t :
  Json.level s = Json.NullLevel -> Json.call m s msg t = Returned.
Proof.
  intros H. rewrite Json_call_parseLog. apply Json_parseLog_returns.
  rewrite H. apply Json_severity_below_null.
Qed.

Lemma Basic_null_logger_mute m s msg t :
  Basic.level s = Basic.NullLevel -> Basic.call m s msg t = Returned.
Proof.
  intros H. rewrite Basic_call_parseLog. apply Basic_parseLog_returns.
  rewrite H. apply Basic_severity_below_null.
Qed.

Lemma Named_null_logger_mute m s msg t :
  Named.level s = Named.NullLevel -> Named.call m s msg t = Returned.
Proof.
  intros H. rewrite Named_call_parseLog. apply Named_parseLog_returns.
  rewrite H. apply Named_severity_below_null.
Qed.

End ParseLog.


Lemma generic_ok_iff (msg : string) : generic_ok msg <-> msg <> "GENERIC".
Proof.
  unfold generic_ok. split.
  - intros H ->. specialize (H eq_refl). simpl in H. lia.
  - intros Hne Hp. destruct (generic_long msg Hp Hne) as (sep & rest & ->).
    rewrite length_app. simpl. lia.
Qed.

(** C1 (evaluated where the code departs from it): a logger with
    threshold info is asked to log the message GENERIC at severity error.
    The severity is above the threshold, so the filtering rule promises a
    record; in all three snapshots the goroutine panics in [msg[8:]] and
    nothing is sent. *)
Theorem filter_passed_but_bare_GENERIC_sends_nothing :
  ((Json.level Sample.jsonInfo <= Json.severity Json.error)%N
   /\ Json.call Json.error Sample.jsonInfo "GENERIC" Sample.now = Panicked
   /\ sent (Json.call Json.error Sample.jsonInfo "GENERIC" Sample.now) = None)
  /\ ((Basic.level Sample.basicInfo <= Basic.severity Basic.error)%N
   /\ Basic.call Basic.error Sample.basicInfo "GENERIC" 1700000000123456789 = Panicked
   /\ sent (Basic.call Basic.error Sample.basicInfo "GENERIC" 1700000000123456789) = None)
  /\ ((Named.level Sample.namedInfo <= Named.severity Named.error)%N
   /\ Named.call Named.error Sample.namedInfo "GENERIC" Sample.now = Panicked
   /\ sent (Named.call Named.error Sample.namedInfo "GENERIC" Sample.now) = None).
Proof. repeat split; vm_compute; congruence. Qed.

(** C2: when the rendered message is GENERIC, one separator byte and a
    rest, every call that passes the filter sends a record whose ID is
    empty, whatever id the logger holds, and whose Msg is the message
    without its first 8 bytes, that is the rest. *)
Theorem generic_prefix_forces_empty_id (sep : ascii) (rest : string) :
  (forall s lvl t, (Json.level s <= lvl)%N ->
     exists r, Json.parseLog s lvl ("GENERIC" ++ String sep rest) t = Sent r
       /\ Json.ID r = "" /\ Json.Msg r = rest
       /\ sliceFrom ("GENERIC" ++ String sep rest) 8 = Some (Json.Msg r))
  /\ (forall s lvl t, (Basic.level s <= lvl)%N ->
     exists r, Basic.parseLog s lvl ("GENERIC" ++ String sep rest) t = Sent r
       /\ Basic.ID r = "" /\ Basic.Msg r = rest
       /\ sliceFrom ("GENERIC" ++ String sep rest) 8 = Some (Basic.Msg r))
  /\ (forall s lvl t, (Named.level s <= lvl)%N ->
     exists r, Named.parseLog s lvl ("GENERIC" ++ String sep rest) t = Sent r
       /\ Named.ID r = "" /\ Named.Msg r = rest
       /\ sliceFrom ("GENERIC" ++ String sep rest) 8 = Some (Named.Msg r)).
Proof.
  pose proof (sliceFrom_generic sep rest) as Hs.
  pose proof (HasPrefix_app "GENERIC" (String sep rest)) as Hp.
  split; [|split]; intros s lvl t Hle.
  - unfold Json.parseLog. destruct (N.ltb_spec lvl (Json.level s)); [lia|].
    rewrite Hp, Hs. eexists. repeat split; assumption.
  - unfold Basic.parseLog. destruct (N.ltb_spec lvl (Basic.level s)); [lia|].
    rewrite Hp, Hs. eexists. repeat split; assumption.
  - unfold Named.parseLog. destruct (N.ltb_spec lvl (Named.level s)); [lia|].
    rewrite Hp, Hs. eexists. repeat split; assumption.
Qed.

Lemma generic_prefix_forces_empty_id_witness :
  exists r, Json.parseLog Sample.jsonInfo Json.ErrorLevel "GENERIC: lost" Sample.now = Sent r
    /\ Json.ID r = "" /\ Json.Msg r = " lost"
    /\ sliceFrom "GENERIC: lost" 8 = Some (Json.Msg r).
Proof.
  apply (proj1 (generic_prefix_forces_empty_id ":" " lost")).
  vm_compute. discriminate.
Defined.

(** C5, the claim as stated, at a tie: threshold info, call at info, in
    each snapshot.  The severities satisfy s1 <= s2 and the call is not
    suppressed: the record is sent. *)
Lemma tie_is_not_suppressed :
  ((Json.InfoLevel <= Json.level Sample.jsonInfo)%N
   /\ Json.level Sample.jsonInfo = Json.InfoLevel
   /\ Json.parseLog Sample.jsonInfo Json.InfoLevel "hello" Sample.now
      = Sent {| Json.ID := "abc"; Json.Sev := "info"; Json.Msg := "hello";
                Json.Timestamp := "2023-11-14T22:13:20.123456789";
                Json.UnixTimeStamp := 1700000000123456789;
                Json.Turn := 0; Json.Function := "" |}
   /\ Json.parseLog Sample.jsonInfo Json.InfoLevel "hello" Sample.now <> Returned)
  /\ ((Basic.InfoLevel <= Basic.level Sample.basicInfo)%N
   /\ Basic.level Sample.basicInfo = Basic.InfoLevel
   /\ Basic.parseLog Sample.basicInfo Basic.InfoLevel "hello" 1700000000123456789
      = Sent {| Basic.ID := "abc"; Basic.Sev := "info"; Basic.Msg := "hello";
                Basic.Time := 1700000000123456789 |}
   /\ Basic.parseLog Sample.basicInfo Basic.InfoLevel "hello" 1700000000123456789
      <> Returned)
  /\ ((Named.InfoLevel <= Named.level Sample.namedInfo)%N
   /\ Named.level Sample.namedInfo = Named.InfoLevel
   /\ Named.parseLog Sample.namedInfo Named.InfoLevel "hello" Sample.now
      = Sent {| Named.ID := "abc"; Named.Sev := "info"; Named.Msg := "hello";
                Named.Timestamp := "2023-11-14T22:13:20.123456789";
                Named.UnixTimeStamp := 1700000000123456789;
                Named.Turn := 0; Named.Function := ""; Named.SnakeName := "" |}
   /\ Named.parseLog Sample.namedInfo Named.InfoLevel "hello" Sample.now <> Returned).
Proof. repeat split; vm_compute; congruence. Qed.

(** C5 as amended: for severities s1 < s2 (strictly), a logger with
    threshold s2 suppresses every call at severity s1: [parseLog]
    returns before building a record, and nothing is sent.  A call at
    the threshold itself (s1 = s2) is not suppressed: [parseLog] does not
    take the early return, and it sends a record for every message but
    the bare GENERIC.  The same in the three snapshots. *)
Theorem strictly_lower_severity_is_suppressed (s1 s2 : N) :
  ((s1 < s2)%N ->
   (forall s msg t, Json.level s = s2 ->
      Json.parseLog s s1 msg t = Returned /\ sent (Json.parseLog s s1 msg t) = None)
   /\ (forall s msg t, Basic.level s = s2 ->
      Basic.parseLog s s1 msg t = Returned /\ sent (Basic.parseLog s s1 msg t) = None)
   /\ (forall s msg t, Named.level s = s2 ->
      Named.parseLog s s1 msg t = Returned /\ sent (Named.parseLog s s1 msg t) = None))
  /\ (s1 = s2 ->
   (forall s msg t, Json.level s = s2 ->
      Json.parseLog s s1 msg t <> Returned
      /\ (msg <> "GENERIC" -> exists r, Json.parseLog s s1 msg t = Sent r))
   /\ (forall s msg t, Basic.level s = s2 ->
      Basic.parseLog s s1 msg t <> Returned
      /\ (msg <> "GENERIC" -> exists r, Basic.parseLog s s1 msg t = Sent r))
   /\ (forall s msg t, Named.level s = s2 ->
      Named.parseLog s s1 msg t <> Returned
      /\ (msg <> "GENERIC" -> exists r, Named.parseLog s s1 msg t = Sent r))).
Proof.
  split.
  - intros Hlt. split; [|split]; intros s msg t <-.
    + now rewrite (proj2 (Json_parseLog_returns s s1 msg t) Hlt).
    + now rewrite (proj2 (Basic_parseLog_returns s s1 msg t) Hlt).
    + now rewrite (proj2 (Named_parseLog_returns s s1 msg t) Hlt).
  - intros ->. split; [|split]; intros s msg t Hs; split.
    + rewrite Json_parseLog_returns. lia.
    + intros Hne. apply (Json_parseLog_sends s s2 msg t Hne). lia.
    + rewrite Basic_parseLog_returns. lia.
    + intros Hne. apply (Basic_parseLog_sends s s2 msg t Hne). lia.
    + rewrite Named_parseLog_returns. lia.
    + intros Hne. apply (Named_parseLog_sends s s2 msg t Hne). lia.
Qed.

Lemma strictly_lower_severity_is_suppressed_witness :
  ((Json.DebugLevel < Json.InfoLevel)%N
   /\ Json.parseLog Sample.jsonInfo Json.DebugLevel "GENERIC" Sample.now = Returned)
  /\ Named.parseLog Sample.namedInfo Named.InfoLevel "hello" Sample.now <> Returned.
Proof.
  assert (H : (Json.DebugLevel < Json.InfoLevel)%N) by (vm_compute; reflexivity).
  split; [split; [exact H|] |].
  - apply (proj1 (proj1 (strictly_lower_severity_is_suppressed _ _) H)). reflexivity.
  - apply (proj2 (proj2 (proj2 (strictly_lower_severity_is_suppressed
                                  Named.InfoLevel Named.InfoLevel) eq_refl))).
    reflexivity.
Defined.

(** C9: [parseLog] tests only the seven bytes GENERIC before it takes
    [msg[8:]].  It never panics exactly for the messages that satisfy
    [generic_ok]; the message GENERIC itself (length 7) does not satisfy
    it, index 8 is out of range, and every call that passes the filter
    panics. *)
Theorem parseLog_total_iff_generic_ok :
  (forall msg, generic_ok msg <-> forall s lvl t, Json.parseLog s lvl msg t <> Panicked)
  /\ (forall msg, generic_ok msg <-> forall s lvl t, Basic.parseLog s lvl msg t <> Panicked)
  /\ (forall msg, generic_ok msg <-> forall s lvl t, Named.parseLog s lvl msg t <> Panicked)
  /\ String.length "GENERIC" = 7%nat
  /\ ~ generic_ok "GENERIC"
  /\ sliceFrom "GENERIC" 8 = None
  /\ (forall s lvl t, (Json.level s <= lvl)%N -> Json.parseLog s lvl "GENERIC" t = Panicked)
  /\ (forall s lvl t, (Basic.level s <= lvl)%N -> Basic.parseLog s lvl "GENERIC" t = Panicked)
  /\ (forall s lvl t, (Named.level s <= lvl)%N -> Named.parseLog s lvl "GENERIC" t = Panicked).
Proof.
  repeat apply conj; try reflexivity.
  - intros msg. rewrite generic_ok_iff. split.
    + intros Hne s lvl t H. apply Json_parseLog_panics in H. tauto.
    + intros H ->.
      apply (H {| Json.level := 0; Json.isNull := false; Json.id := "";
                  Json.currentFunc := ""; Json.currentTurn := 0 |} 0%N Sample.now).
      reflexivity.
  - intros msg. rewrite generic_ok_iff. split.
    + intros Hne s lvl t H. apply Basic_parseLog_panics in H. tauto.
    + intros H ->.
      apply (H {| Basic.level := 0; Basic.isNull := false; Basic.id := "" |} 0%N 0%Z).
      reflexivity.
  - intros msg. rewrite generic_ok_iff. split.
    + intros Hne s lvl t H. apply Named_parseLog_panics in H. tauto.
    + intros H ->.
      apply (H {| Named.level := 0; Named.isNull := false; Named.id := "";
                  Named.currentFunc := ""; Named.currentTurn := 0;
                  Named.name := "" |} 0%N Sample.now).
      reflexivity.
  - rewrite generic_ok_iff. tauto.
  - intros s lvl t H. now apply Json_parseLog_panics.
  - intros s lvl t H. now apply Basic_parseLog_panics.
  - intros s lvl t H. now apply Named_parseLog_panics.
Qed.

Lemma parseLog_total_iff_generic_ok_witness :
  Named.parseLog Sample.namedInfo Named.ReportLevel "GENERIC" Sample.now = Panicked
  /\ Named.parseLog Sample.namedInfo Named.ReportLevel "GENERIC " Sample.now <> Panicked.
Proof.
  destruct parseLog_total_iff_generic_ok as (_ & _ & Hok & _ & _ & _ & _ & _ & Hpanic).
  split.
  - apply Hpanic. vm_compute. discriminate.
  - apply (proj1 (Hok "GENERIC ")). intros _. simpl. lia.
Defined.

(** * [NewLogger]: the level found does not depend on the visiting order *)
Section LevelLookup.


Lemma firstMatch_None (order : list (N * string)) (v : string) :
  firstMatch order v = None <-> v ∉ order.*2.
Proof.
  induction order as [|[l v'] order IH]; simpl.
  - split; [intros _; apply not_elem_of_nil | reflexivity].
  - rewrite not_elem_of_cons. destruct (decide (v' = v)) as [->|Hne].
    + split; [discriminate | intros [H _]; now destruct H].
    + rewrite IH. split; [intros H; split; [congruence | exact H] | tauto].
Qed.

Lemma firstMatch_Some (order : list (N * string)) (v : string) (l : N) :
  NoDup order.*2 -> firstMatch order v = Some l <-> (l, v) ∈ order.
Proof.
  induction order as [|[l' v'] order IH]; simpl; intros Hnd.
  - split; [discriminate | intros H; inversion H].
  - apply NoDup_cons in Hnd as [Hnotin Hnd]. rewrite elem_of_cons.
    destruct (decide (v' = v)) as [->|Hne].
    + split.
      * intros [= ->]. now left.
      * intros [[= -> ]|Hin]; [reflexivity|].
        destruct Hnotin. apply list_elem_of_fmap. now exists (l, v).
    + rewrite (IH Hnd). split; [now right | intros [[= _ H]|H]; [congruence | exact H]].
Qed.

Lemma firstMatch_perm (o1 o2 : list (N * string)) (v : string) :
  NoDup o1.*2 -> o1 ≡ₚ o2 -> firstMatch o1 v = firstMatch o2 v.
Proof.
  intros Hnd Hp.
  assert (Hnd2 : NoDup o2.*2) by now rewrite <- Hp.
  destruct (firstMatch o1 v) as [l|] eqn:E1.
  - symmetry. apply firstMatch_Some; [assumption|].
    rewrite <- Hp. now apply firstMatch_Some in E1.
  - symmetry. apply firstMatch_None. rewrite <- Hp. now apply firstMatch_None.
Qed.

Lemma Json_range_firstMatch order lvl s :
  Json.rangeLevelMap order lvl s
  = match firstMatch order lvl with Some l => Json.updateLogLevel s l | None => s end.
Proof.
  induction order as [|[l v] order IH]; simpl; [reflexivity|].
  destruct (decide (v = lvl)); [reflexivity | exact IH].
Qed.

Lemma Basic_range_firstMatch order lvl s :
  Basic.rangeLevelMap order lvl s
  = match firstMatch order lvl with Some l => Basic.updateLogLevel s l | None => s end.
Proof.
  induction order as [|[l v] order IH]; simpl; [reflexivity|].
  destruct (decide (v = lvl)); [reflexivity | exact IH].
Qed.

Lemma Named_range_firstMatch order lvl s :
  Named.rangeLevelMap order lvl s
  = match firstMatch order lvl with Some l => Named.updateLogLevel s l | None => s end.
Proof.
  induction order as [|[l v] order IH]; simpl; [reflexivity|].
  destruct (decide (v = lvl)); [reflexivity | exact IH].
Qed.

(** No two levels share a name. *)
Lemma Json_names_NoDup : NoDup (map_to_list Json.levelMap).*2.
Proof. apply (bool_decide_unpack _). vm_compute. exact I. Qed.

Lemma Basic_names_NoDup : NoDup (map_to_list Basic.levelMap).*2.
Proof. apply (bool_decide_unpack _). vm_compute. exact I. Qed.

Lemma Named_names_NoDup : NoDup (map_to_list Named.levelMap).*2.
Proof. apply (bool_decide_unpack _). vm_compute. exact I. Qed.

Lemma Json_NewLogger_order o lvl i :
  Json.visits o ->
  Json.NewLogger o lvl i = Json.NewLogger (map_to_list Json.levelMap) lvl 0.
Proof.
  intros Hv. unfold Json.NewLogger. rewrite !Json_range_firstMatch.
  rewrite (firstMatch_perm (map_to_list Json.levelMap) o lvl Json_names_NoDup);
    [reflexivity | now symmetry].
Qed.

Lemma Basic_NewLogger_order o lvl i :
  Basic.visits o ->
  Basic.NewLogger o lvl i = Basic.NewLogger (map_to_list Basic.levelMap) lvl 0.
Proof.
  intros Hv. unfold Basic.NewLogger. rewrite !Basic_range_firstMatch.
  rewrite (firstMatch_perm (map_to_list Basic.levelMap) o lvl Basic_names_NoDup);
    [reflexivity | now symmetry].
Qed.

Lemma Named_NewLogger_order o lvl i :
  Named.visits o ->
  Named.NewLogger o lvl i = Named.NewLogger (map_to_list Named.levelMap) lvl 0.
Proof.
  intros Hv. unfold Named.NewLogger. rewrite !Named_range_firstMatch.
  rewrite (firstMatch_perm (map_to_list Named.levelMap) o lvl Named_names_NoDup);
    [reflexivity | now symmetry].
Qed.

Lemma Json_NewLogger_context o lvl i :
  let s := Json.NewLogger o lvl i in
  Json.id s = "" /\ Json.currentFunc s = "" /\ Json.currentTurn s = 0%Z
  /\ Json.isNull s = false.
Proof.
  simpl. unfold Json.NewLogger. rewrite Json_range_firstMatch.
  now destruct (firstMatch o lvl).
Qed.

Lemma Basic_NewLogger_context o lvl i :
  let s := Basic.NewLogger o lvl i in
  Basic.id s = "" /\ Basic.isNull s = false.
Proof.
  simpl. unfold Basic.NewLogger. rewrite Basic_range_firstMatch.
  now destruct (firstMatch o lvl).
Qed.

Lemma Named_NewLogger_context o lvl i :
  let s := Named.NewLogger o lvl i in
  Named.id s = "" /\ Named.currentFunc s = "" /\ Named.currentTurn s = 0%Z
  /\ Named.name s = "" /\ Named.isNull s = false.
Proof.
  simpl. unfold Named.NewLogger. rewrite Named_range_firstMatch.
  now destruct (firstMatch o lvl).
Qed.

End LevelLookup.

(** C10: [NewLogger] never reads its index parameter, and the map order
    the runtime picks does not matter either: for a level string and any
    two indices (and any two visiting orders of [levelMap]) the loggers
    returned are equal, with the same threshold, an empty id and
    zero-valued context fields. *)
Theorem NewLogger_independent_of_index (lvl : string) (i j : N) :
  (forall o1 o2, Json.visits o1 -> Json.visits o2 ->
     Json.NewLogger o1 lvl i = Json.NewLogger o2 lvl j
     /\ Json.level (Json.NewLogger o1 lvl i) = Json.level (Json.NewLogger o2 lvl j)
     /\ Json.id (Json.NewLogger o1 lvl i) = ""
     /\ Json.currentFunc (Json.NewLogger o1 lvl i) = ""
     /\ Json.currentTurn (Json.NewLogger o1 lvl i) = 0%Z)
  /\ (forall o1 o2, Basic.visits o1 -> Basic.visits o2 ->
     Basic.NewLogger o1 lvl i = Basic.NewLogger o2 lvl j
     /\ Basic.level (Basic.NewLogger o1 lvl i) = Basic.level (Basic.NewLogger o2 lvl j)
     /\ Basic.id (Basic.NewLogger o1 lvl i) = "")
  /\ (forall o1 o2, Named.visits o1 -> Named.visits o2 ->
     Named.NewLogger o1 lvl i = Named.NewLogger o2 lvl j
     /\ Named.level (Named.NewLogger o1 lvl i) = Named.level (Named.NewLogger o2 lvl j)
     /\ Named.id (Named.NewLogger o1 lvl i) = ""
     /\ Named.currentFunc (Named.NewLogger o1 lvl i) = ""
     /\ Named.currentTurn (Named.NewLogger o1 lvl i) = 0%Z
     /\ Named.name (Named.NewLogger o1 lvl i) = "").
Proof.
  split; [|split]; intros o1 o2 H1 H2.
  - rewrite (Json_NewLogger_order o1 lvl i H1), (Json_NewLogger_order o2 lvl j H2).
    pose proof (Json_NewLogger_context (map_to_list Json.levelMap) lvl 0) as H.
    simpl in H. tauto.
  - rewrite (Basic_NewLogger_order o1 lvl i H1), (Basic_NewLogger_order o2 lvl j H2).
    pose proof (Basic_NewLogger_context (map_to_list Basic.levelMap) lvl 0) as H.
    simpl in H. tauto.
  - rewrite (Named_NewLogger_order o1 lvl i H1), (Named_NewLogger_order o2 lvl j H2).
    pose proof (Named_NewLogger_context (map_to_list Named.levelMap) lvl 0) as H.
    simpl in H. tauto.
Qed.

Lemma NewLogger_independent_of_index_witness :
  Named.NewLogger (map_to_list Named.levelMap) "report" 7
  = Named.NewLogger (reverse (map_to_list Named.levelMap)) "report" 12345
  /\ Named.level (Named.NewLogger (map_to_list Named.levelMap) "report" 7) = Named.ReportLevel.
Proof.
  split; [|vm_compute; reflexivity].
  apply (proj2 (proj2 (NewLogger_independent_of_index "report" 7 12345))).
  - unfold Named.visits. reflexivity.
  - unfold Named.visits. apply reverse_Permutation.
Defined.

(** * The consumer loops *)
Section Sink.

Context {R : Type}.
Variable route : R -> string.
Variable bytes : R -> string.
Variable openFailed : string -> World -> Status * World.

Local Abbreviation sinkLoop := (sinkLoop route bytes openFailed).


Lemma handled_target path data io w :
  files (handled path data io w) !! path = Some (content w path ++ data).
Proof.
  unfold handled, append, content. destruct (Close io); simpl;
    now rewrite !lookup_insert_eq.
Qed.

Lemma handled_other path data io w q :
  q <> path -> files (handled path data io w) !! q = files w !! q.
Proof.
  intros Hne. unfold handled, append. destruct (Close io); simpl;
    now rewrite !lookup_insert_ne by congruence.
Qed.

Lemma handled_content path data io w :
  content (handled path data io w) path = content w path ++ data.
Proof. unfold content at 1. now rewrite handled_target. Qed.

Lemma sinkLoop_step m io c w :
  survivable io = true ->
  sinkLoop ((m, io) :: c) w = sinkLoop c (handled (route m) (bytes m) io w).
Proof. destruct io; simpl; intros H; try discriminate; reflexivity. Qed.

Lemma sinkLoop_app pre c w :
  quiet pre ->
  fst (sinkLoop pre w) = Blocked
  /\ sinkLoop (pre ++ c) w = sinkLoop c (snd (sinkLoop pre w)).
Proof.
  intros Hq. revert w. induction Hq as [|[m io] pre Hio _ IH]; intros w.
  - split; reflexivity.
  - simpl in Hio. rewrite <- app_comm_cons, !sinkLoop_step by assumption. apply IH.
Qed.

Lemma sinkLoop_open_fails pre m err rest w :
  quiet pre ->
  sinkLoop (pre ++ (m, OpenFails err) :: rest) w = openFailed err (snd (sinkLoop pre w)).
Proof. intros Hq. now rewrite (proj2 (sinkLoop_app pre _ w Hq)). Qed.

Lemma sinkLoop_next pre m io w :
  quiet pre -> survivable io = true ->
  sinkLoop (pre ++ [(m, io)]) w
  = (Blocked, handled (route m) (bytes m) io (snd (sinkLoop pre w))).
Proof.
  intros Hq Hio. rewrite (proj2 (sinkLoop_app pre _ w Hq)).
  now rewrite sinkLoop_step.
Qed.

(** Whatever the system does meanwhile, handling a record leaves every
    file but the record's own as it was. *)
Lemma sinkLoop_last_other pre m io w q :
  quiet pre ->
  (forall err w0, files (snd (openFailed err w0)) = files w0) ->
  q <> route m ->
  files (snd (sinkLoop (pre ++ [(m, io)]) w)) !! q = files (snd (sinkLoop pre w)) !! q.
Proof.
  intros Hq Hopen Hne. rewrite (proj2 (sinkLoop_app pre _ w Hq)).
  generalize (snd (sinkLoop pre w)). intros w1.
  destruct io; simpl; rewrite ?Hopen; simpl;
    now rewrite ?lookup_insert_ne by congruence.
Qed.

End Sink.

Section Instances.


Lemma Json_text_loop basedir c w :
  Json.writeToFile_loop basedir c w
  = sinkLoop (Json.filename basedir) Json.Bytes fatal c w.
Proof.
  revert w. induction c as [|[m io] c IH]; intros w; simpl; [reflexivity|].
  destruct (OpenFile _ io w); [|reflexivity].
  destruct (Write _ _ io _) as [|[? ?]]; [apply IH | reflexivity].
Qed.

Lemma Basic_text_loop basedir c w :
  Basic.writeToFile_loop basedir c w
  = sinkLoop (Basic.filename basedir) Basic.Bytes fatal c w.
Proof.
  revert w. induction c as [|[m io] c IH]; intros w; simpl; [reflexivity|].
  destruct (OpenFile _ io w); [|reflexivity].
  destruct (Write _ _ io _) as [|[? ?]]; [apply IH | reflexivity].
Qed.

Lemma Named_text_loop basedir c w :
  Named.writeToFile_loop basedir c w
  = sinkLoop (Named.filename basedir) Named.Bytes fatal c w.
Proof.
  revert w. induction c as [|[m io] c IH]; intros w; simpl; [reflexivity|].
  destruct (OpenFile _ io w); [|reflexivity].
  destruct (Write _ _ io _) as [|[? ?]]; [apply IH | reflexivity].
Qed.

Lemma Json_json_loop file c w :
  Json.writeJSONToFile_loop file c w
  = sinkLoop (fun _ => file) Json.Marshal giveUp c w.
Proof.
  revert w. induction c as [|[m io] c IH]; intros w; simpl; [reflexivity|].
  destruct (OpenFile _ io w); [|reflexivity].
  destruct (Write _ _ io _) as [|[? ?]]; [apply IH | reflexivity].
Qed.


(** The set-up only prints: it leaves the files alone. *)
Lemma Json_setup_spec env sub w :
  fst (Json.setup env sub w) = basedirOf env sub
  /\ files (snd (Json.setup env sub w)) = files w.
Proof.
  unfold Json.setup, basedirOf.
  destruct (decide (HOME env = "")); destruct (mkdir env); split; reflexivity.
Qed.

Lemma Basic_setup_spec env sub w :
  fst (Basic.setup env sub w) = basedirOf env sub
  /\ files (snd (Basic.setup env sub w)) = files w.
Proof.
  unfold Basic.setup, basedirOf.
  destruct (decide (HOME env = "")); destruct (mkdir env); split; reflexivity.
Qed.

Lemma Named_setup_spec env sub w :
  fst (Named.setup env sub w) = basedirOf env sub
  /\ files (snd (Named.setup env sub w)) = files w.
Proof.
  unfold Named.setup, basedirOf.
  destruct (decide (HOME env = "")); destruct (mkdir env); split; reflexivity.
Qed.

Lemma Json_writeToFile_unfold env c w :
  Json.writeToFile env c w
  = sinkLoop (Json.filename (basedirOf env "/battlesnakeLogs")) Json.Bytes fatal c
      (snd (Json.setup env "/battlesnakeLogs" w)).
Proof.
  unfold Json.writeToFile.
  destruct (Json.setup env "/battlesnakeLogs" w) as [b w1] eqn:E.
  rewrite Json_text_loop.
  now rewrite <- (proj1 (Json_setup_spec env "/battlesnakeLogs" w)), E.
Qed.

Lemma Basic_writeToFile_unfold env c w :
  Basic.writeToFile env c w
  = sinkLoop (Basic.filename (basedirOf env "/battlesnakeLogs")) Basic.Bytes fatal c
      (snd (Basic.setup env "/battlesnakeLogs" w)).
Proof.
  unfold Basic.writeToFile.
  destruct (Basic.setup env "/battlesnakeLogs" w) as [b w1] eqn:E.
  rewrite Basic_text_loop.
  now rewrite <- (proj1 (Basic_setup_spec env "/battlesnakeLogs" w)), E.
Qed.

Lemma Named_writeToFile_unfold env c w :
  Named.writeToFile env c w
  = sinkLoop (Named.filename (basedirOf env "/battlesnakeLogs")) Named.Bytes fatal c
      (snd (Named.setup env "/battlesnakeLogs" w)).
Proof.
  unfold Named.writeToFile.
  destruct (Named.setup env "/battlesnakeLogs" w) as [b w1] eqn:E.
  rewrite Named_text_loop.
  now rewrite <- (proj1 (Named_setup_spec env "/battlesnakeLogs" w)), E.
Qed.

Lemma Json_writeJSONToFile_unfold env c w :
  Json.writeJSONToFile env c w
  = sinkLoop (fun _ => basedirOf env "/battlesnakeJSON" ++ "/battlesnake.json")
      Json.Marshal giveUp c (snd (Json.setup env "/battlesnakeJSON" w)).
Proof.
  unfold Json.writeJSONToFile.
  destruct (Json.setup env "/battlesnakeJSON" w) as [b w1] eqn:E.
  rewrite Json_json_loop.
  now rewrite <- (proj1 (Json_setup_spec env "/battlesnakeJSON" w)), E.
Qed.

End Instances.

(** * Routing *)

Lemma append_inj_l (p a b : string) : p ++ a = p ++ b -> a = b.
Proof. induction p as [|c p IH]; simpl; [tauto | intros [= H]; auto]. Qed.

(** With an empty snake name the path is the base directory's own name
    with generic.log glued to it: a sibling of the base directory, not a
    file inside it. *)
Lemma Named_generic_filename (basedir : string) (m : Named.LogData) :
  Named.SnakeName m = "" ->
  Named.filename basedir m = basedir ++ "generic.log"
  /\ Named.filename basedir m <> basedir ++ "/generic.log".
Proof.
  intros H. unfold Named.filename. rewrite H. simpl. split; [reflexivity|].
  intros E. apply append_inj_l in E. discriminate.
Qed.

(** C3 (evaluated where the code departs from it): HOME is /home/snake,
    the record has an empty SnakeName.  The snapshot with name-based
    routing appends the line to /home/snake/battlesnakeLogsgeneric.log;
    no file generic.log appears inside the base directory
    /home/snake/battlesnakeLogs. *)
Theorem Named_generic_log_lands_beside_basedir :
  Named.SnakeName Sample.namedGeneric = ""
  /\ basedirOf Sample.env "/battlesnakeLogs" = "/home/snake/battlesnakeLogs"
  /\ Named.filename "/home/snake/battlesnakeLogs" Sample.namedGeneric
     = "/home/snake/battlesnakeLogsgeneric.log"
  /\ fst (Named.writeToFile Sample.env [(Sample.namedGeneric, NoFault)] Sample.empty) = Blocked
  /\ files (snd (Named.writeToFile Sample.env [(Sample.namedGeneric, NoFault)] Sample.empty))
       !! "/home/snake/battlesnakeLogsgeneric.log"
     = Some (Named.Bytes Sample.namedGeneric)
  /\ files (snd (Named.writeToFile Sample.env [(Sample.namedGeneric, NoFault)] Sample.empty))
       !! "/home/snake/battlesnakeLogs/generic.log"
     = None.
Proof. repeat split; vm_compute; reflexivity. Qed.

(** C7: under id-based routing (snapshots [Json] and [Basic]) the record
    handled next, after any history the loop got over, is appended to
    game-<id>.log in the base directory when its ID is not empty and to
    generic.log there when it is; no other file changes, whatever the
    system does meanwhile.  For ID abc the file is game-abc.log. *)
Theorem id_routing (env : Env) (w : World) :
  (forall pre m io, quiet pre -> survivable io = true ->
     let target :=
       if decide (Json.ID m = "")
       then basedirOf env "/battlesnakeLogs" ++ "/generic.log"
       else basedirOf env "/battlesnakeLogs" ++ "/game-" ++ Json.ID m ++ ".log" in
     let w1 := snd (Json.writeToFile env pre w) in
     let w2 := snd (Json.writeToFile env (pre ++ [(m, io)]) w) in
     files w2 !! target = Some (content w1 target ++ Json.Bytes m)
     /\ (forall q, q <> target -> files w2 !! q = files w1 !! q)
     /\ (forall q io', q <> target ->
           files (snd (Json.writeToFile env (pre ++ [(m, io')]) w)) !! q = files w1 !! q)
     /\ (Json.ID m = "abc" ->
         target = basedirOf env "/battlesnakeLogs" ++ "/game-abc.log"))
  /\ (forall pre m io, quiet pre -> survivable io = true ->
     let target :=
       if decide (Basic.ID m = "")
       then basedirOf env "/battlesnakeLogs" ++ "/generic.log"
       else basedirOf env "/battlesnakeLogs" ++ "/game-" ++ Basic.ID m ++ ".log" in
     let w1 := snd (Basic.writeToFile env pre w) in
     let w2 := snd (Basic.writeToFile env (pre ++ [(m, io)]) w) in
     files w2 !! target = Some (content w1 target ++ Basic.Bytes m)
     /\ (forall q, q <> target -> files w2 !! q = files w1 !! q)
     /\ (forall q io', q <> target ->
           files (snd (Basic.writeToFile env (pre ++ [(m, io')]) w)) !! q = files w1 !! q)
     /\ (Basic.ID m = "abc" ->
         target = basedirOf env "/battlesnakeLogs" ++ "/game-abc.log")).
Proof.
  split; intros pre m io Hq Hio; cbv zeta.
  - fold (Json.filename (basedirOf env "/battlesnakeLogs") m).
    repeat apply conj.
    + rewrite !Json_writeToFile_unfold, sinkLoop_next by assumption.
      apply handled_target.
    + intros q Hne. rewrite !Json_writeToFile_unfold, sinkLoop_next by assumption.
      now apply handled_other.
    + intros q io' Hne. rewrite !Json_writeToFile_unfold.
      now apply sinkLoop_last_other.
    + intros E. unfold Json.filename. now rewrite E.
  - fold (Basic.filename (basedirOf env "/battlesnakeLogs") m).
    repeat apply conj.
    + rewrite !Basic_writeToFile_unfold, sinkLoop_next by assumption.
      apply handled_target.
    + intros q Hne. rewrite !Basic_writeToFile_unfold, sinkLoop_next by assumption.
      now apply handled_other.
    + intros q io' Hne. rewrite !Basic_writeToFile_unfold.
      now apply sinkLoop_last_other.
    + intros E. unfold Basic.filename. now rewrite E.
Qed.

Lemma id_routing_witness :
  files (snd (Json.writeToFile Sample.env
                [(Sample.jsonGeneric, CloseFails "close: interrupted");
                 (Sample.jsonRecord, NoFault)] Sample.empty))
    !! "/home/snake/battlesnakeLogs/game-abc.log"
  = Some (Json.Bytes Sample.jsonRecord).
Proof.
  refine (proj1 (proj1 (id_routing Sample.env Sample.empty)
                   [(Sample.jsonGeneric, CloseFails "close: interrupted")]
                   Sample.jsonRecord NoFault _ _)).
  - repeat constructor.
  - reflexivity.
Defined.

(** * A file that cannot be opened *)

(** C4, the claim as stated, on the JSON sink: the first of two records
    meets a failing [os.OpenFile].  The writer prints the error and
    leaves its loop; it does not end the process, and the second record
    is never handled. *)
Lemma json_open_failure_keeps_process :
  fst (Json.writeJSONToFile Sample.env
         [(Sample.jsonRecord, OpenFails "open battlesnake.json: permission denied");
          (Sample.jsonGeneric, NoFault)] Sample.empty) = Finished
  /\ (forall code,
        fst (Json.writeJSONToFile Sample.env
               [(Sample.jsonRecord, OpenFails "open battlesnake.json: permission denied");
                (Sample.jsonGeneric, NoFault)] Sample.empty) <> Exited code)
  /\ stdout (snd (Json.writeJSONToFile Sample.env
               [(Sample.jsonRecord, OpenFails "open battlesnake.json: permission denied");
                (Sample.jsonGeneric, NoFault)] Sample.empty))
     = ["open battlesnake.json: permission denied"]
  /\ files (snd (Json.writeJSONToFile Sample.env
               [(Sample.jsonRecord, OpenFails "open battlesnake.json: permission denied");
                (Sample.jsonGeneric, NoFault)] Sample.empty)) = ∅.
Proof. repeat split; try (vm_compute; reflexivity). intros code. vm_compute. discriminate. Qed.

(** C4 as amended: in every sink a failure to open the destination file
    ends the consumer loop, and no later record is handled.  The text
    sink (all three snapshots) calls [log.Fatal]: the error goes to
    standard error and the process exits with status 1.  The JSON sink
    prints the error and leaves its loop: its writer returns and the
    process goes on. *)
Theorem open_failure_ends_the_writer (env : Env) (err : string) (w : World) :
  (forall pre m rest, quiet pre ->
     Json.writeToFile env (pre ++ (m, OpenFails err) :: rest) w
     = (Exited 1, Fatal err (snd (Json.writeToFile env pre w))))
  /\ (forall pre m rest, quiet pre ->
     Basic.writeToFile env (pre ++ (m, OpenFails err) :: rest) w
     = (Exited 1, Fatal err (snd (Basic.writeToFile env pre w))))
  /\ (forall pre m rest, quiet pre ->
     Named.writeToFile env (pre ++ (m, OpenFails err) :: rest) w
     = (Exited 1, Fatal err (snd (Named.writeToFile env pre w))))
  /\ (forall pre m rest, quiet pre ->
     Json.writeJSONToFile env (pre ++ (m, OpenFails err) :: rest) w
     = (Finished, Println err (snd (Json.writeJSONToFile env pre w)))).
Proof.
  repeat apply conj; intros pre m rest Hq.
  - rewrite !Json_writeToFile_unfold. now rewrite sinkLoop_open_fails.
  - rewrite !Basic_writeToFile_unfold. now rewrite sinkLoop_open_fails.
  - rewrite !Named_writeToFile_unfold. now rewrite sinkLoop_open_fails.
  - rewrite !Json_writeJSONToFile_unfold. now rewrite sinkLoop_open_fails.
Qed.

Lemma open_failure_ends_the_writer_witness :
  Json.writeToFile Sample.env
    [(Sample.jsonGeneric, NoFault);
     (Sample.jsonRecord, OpenFails "open game-abc.log: permission denied");
     (Sample.jsonGeneric, NoFault)] Sample.empty
  = (Exited 1,
     Fatal "open game-abc.log: permission denied"
       (snd (Json.writeToFile Sample.env [(Sample.jsonGeneric, NoFault)] Sample.empty))).
Proof.
  apply (proj1 (open_failure_ends_the_writer Sample.env
                  "open game-abc.log: permission denied" Sample.empty)
           [(Sample.jsonGeneric, NoFault)]).
  repeat constructor.
Defined.

(** * The text line *)

Lemma ParseInt_FormatInt (z : Z) : ParseInt (FormatInt z) = Some z.
Proof.
  unfold ParseInt, FormatInt. rewrite NilZero.isi.
  - simpl. now rewrite DecimalZ.of_to.
  - destruct z; simpl; try discriminate.
    intros [= H]. now apply DecimalPos.Unsigned.to_uint_nonnil in H.
  - destruct z; simpl; try discriminate.
    intros [= H]. now apply DecimalPos.Unsigned.to_uint_nonnil in H.
Qed.

(** C6, the claim as stated, on a record with stamp 1700000000123456789,
    severity error and message boom: the line has a space between the
    message and the newline, so it is not the line the claim gives. *)
Lemma minimal_line_has_trailing_space :
  Json.LogData_String Sample.jsonRecord
  = "1700000000123456789 [error] boom " ++ String GoJSON.newline ""
  /\ Json.LogData_String Sample.jsonRecord
     <> "1700000000123456789 [error] boom" ++ String GoJSON.newline ""
  /\ Basic.LogData_String Sample.basicRecord
     <> "1700000000123456789 [error] boom" ++ String GoJSON.newline "".
Proof. repeat split; vm_compute; congruence. Qed.

(** C6 as amended: the minimal form ([Json] and [Basic]) is the decimal
    numeral of the nanosecond stamp, a space, the severity name in square
    brackets, a space, the message, a space and a newline, six bytes more
    than the three parts hold; the text sink appends exactly this line
    to the record's file. *)
Theorem minimal_line_format :
  (forall l : Json.LogData,
     Json.LogData_String l
     = FormatInt (Json.UnixTimeStamp l) ++ " [" ++ Json.Sev l ++ "] " ++ Json.Msg l
         ++ " " ++ String GoJSON.newline ""
     /\ ParseInt (FormatInt (Json.UnixTimeStamp l)) = Some (Json.UnixTimeStamp l)
     /\ String.length (Json.LogData_String l)
        = (String.length (FormatInt (Json.UnixTimeStamp l)) + String.length (Json.Sev l)
           + String.length (Json.Msg l) + 6)%nat
     /\ forall env w pre io, quiet pre -> survivable io = true ->
          let file := Json.filename (basedirOf env "/battlesnakeLogs") l in
          content (snd (Json.writeToFile env (pre ++ [(l, io)]) w)) file
          = content (snd (Json.writeToFile env pre w)) file
              ++ FormatInt (Json.UnixTimeStamp l) ++ " [" ++ Json.Sev l ++ "] "
              ++ Json.Msg l ++ " " ++ String GoJSON.newline "")
  /\ (forall l : Basic.LogData,
     Basic.LogData_String l
     = FormatInt (Basic.Time l) ++ " [" ++ Basic.Sev l ++ "] " ++ Basic.Msg l
         ++ " " ++ String GoJSON.newline ""
     /\ ParseInt (FormatInt (Basic.Time l)) = Some (Basic.Time l)
     /\ String.length (Basic.LogData_String l)
        = (String.length (FormatInt (Basic.Time l)) + String.length (Basic.Sev l)
           + String.length (Basic.Msg l) + 6)%nat
     /\ forall env w pre io, quiet pre -> survivable io = true ->
          let file := Basic.filename (basedirOf env "/battlesnakeLogs") l in
          content (snd (Basic.writeToFile env (pre ++ [(l, io)]) w)) file
          = content (snd (Basic.writeToFile env pre w)) file
              ++ FormatInt (Basic.Time l) ++ " [" ++ Basic.Sev l ++ "] "
              ++ Basic.Msg l ++ " " ++ String GoJSON.newline "").
Proof.
  split; intros l; (split; [reflexivity|]); (split; [apply ParseInt_FormatInt|]); split.
  - unfold Json.LogData_String. rewrite !length_app. simpl. lia.
  - intros env w pre io Hq Hio. cbv zeta.
    rewrite !Json_writeToFile_unfold, sinkLoop_next by assumption.
    apply handled_content.
  - unfold Basic.LogData_String. rewrite !length_app. simpl. lia.
  - intros env w pre io Hq Hio. cbv zeta.
    rewrite !Basic_writeToFile_unfold, sinkLoop_next by assumption.
    apply handled_content.
Qed.

Lemma minimal_line_format_witness :
  content (snd (Basic.writeToFile Sample.env [(Sample.basicRecord, NoFault)] Sample.empty))
    "/home/snake/battlesnakeLogs/game-abc.log"
  = "1700000000123456789 [error] boom " ++ String GoJSON.newline "".
Proof.
  refine (proj2 (proj2 (proj2 (proj2 minimal_line_format Sample.basicRecord)))
            Sample.env Sample.empty [] NoFault _ _).
  - constructor.
  - reflexivity.
Defined.

(** * The JSON sink *)
Section JsonFacts.

Import GoJSON.

Lemma occurs_app a s t : occurs a (s ++ t) = occurs a s || occurs a t.
Proof.
  induction s as [|b s IH]; simpl; [reflexivity|].
  destruct (Ascii.eqb a b); [reflexivity | exact IH].
Qed.

Lemma lastByte_app_char s a : lastByte (s ++ String a "") = Some a.
Proof.
  induction s as [|b s IH]; simpl; [reflexivity|].
  rewrite IH. now destruct (s ++ String a "").
Qed.

(** An ASCII byte is written as itself (not below 0x20) or as an
    escape made of printable characters. *)
Lemma ascii_unit_no_newline (a : ascii) :
  (byte_of a <? 128)%N = true ->
  occurs newline (if htmlSafeSet (byte_of a) then String a "" else escapeByte (byte_of a))
  = false.
Proof. destruct a as [[] [] [] [] [] [] [] []]; vm_compute; congruence. Qed.

Lemma high_not_newline (a : ascii) :
  (128 <= byte_of a)%N -> Ascii.eqb newline a = false.
Proof.
  destruct a as [[] [] [] [] [] [] [] []]; intros H; try reflexivity;
    vm_compute in H; now destruct H.
Qed.

Lemma acceptLo_high s0 : (128 <= acceptLo s0)%N.
Proof. unfold acceptLo. destruct (s0 =? 224)%N, (s0 =? 240)%N; lia. Qed.


Lemma continuation_high b : continuation b = true -> (128 <= b)%N.
Proof. unfold continuation. intros H. apply andb_prop in H as [H _]. now apply N.leb_le. Qed.

Ltac head_if H :=
  match type of H with
  | (if ?b then _ else _) = _ => destruct b eqn:?
  end.

(** What [DecodeRuneInString] says of the first bytes of a string that
    starts with a non-ASCII byte: it takes at least one, and those it
    takes are all non-ASCII. *)
Lemma decode_spec (a : ascii) (rest : string) (c : N) (size : nat) :
  DecodeRuneInString (substring 0 4 (String a rest)) = (c, size) ->
  (1 <= size)%nat
  /\ ((128 <= byte_of a)%N ->
      occurs newline (substring 0 size (String a rest)) = false).
Proof.
  intros Hd.
  destruct rest as [|a1 [|a2 [|a3 r]]];
    cbv beta iota zeta delta [DecodeRuneInString substring] in Hd;
    repeat head_if Hd; injection Hd as <- <-.
  all: split; [lia|]; intros Ha.
  all: cbn [substring occurs].
  all: rewrite (high_not_newline a Ha).
  all: repeat match goal with
       | H : ((byte_of ?x <? acceptLo _)%N || _) = false |- _ =>
         rewrite (high_not_newline x)
           by (apply orb_false_elim in H as [H _]; apply N.ltb_ge in H;
               pose proof (acceptLo_high (byte_of a)); lia);
         clear H
       | H : negb (continuation (byte_of ?x)) = false |- _ =>
         rewrite (high_not_newline x)
           by (apply continuation_high; now apply negb_false_iff in H);
         clear H
       end.
  all: try reflexivity.
  now destruct r.
Qed.

Lemma length_substring_le n m s : (String.length (substring n m s) <= m)%nat.
Proof.
  revert n m. induction s as [|a s IH]; intros [|n] [|m]; simpl; try lia.
  - specialize (IH 0%nat m). lia.
  - apply (IH n 0%nat).
  - apply (IH n (S m)).
Qed.

Lemma length_skip n a rest :
  (1 <= n)%nat -> (String.length (skip n (String a rest)) <= String.length rest)%nat.
Proof.
  intros Hn. unfold skip.
  pose proof (length_substring_le n (String.length (String a rest) - n) (String a rest)).
  simpl in *. lia.
Qed.

(** [String.length src] turns of the loop are as good as any more. *)
Lemma appendString_loop_fuel (fuel1 fuel2 : nat) (src : string) :
  (String.length src <= fuel1)%nat -> (String.length src <= fuel2)%nat ->
  appendString_loop fuel1 src = appendString_loop fuel2 src.
Proof.
  revert fuel2 src. induction fuel1 as [|fuel1 IH]; intros [|fuel2] [|a rest] H1 H2;
    simpl in H1, H2; try lia; try reflexivity.
  cbn [appendString_loop].
  destruct (byte_of a <? 128)%N.
  - f_equal. apply IH; lia.
  - destruct (DecodeRuneInString (substring 0 4 (String a rest))) as [c size] eqn:Hd.
    pose proof (proj1 (decode_spec a rest c size Hd)) as Hsize.
    pose proof (length_skip size a rest Hsize) as Hskip.
    destruct ((c =? RuneError)%N && (size =? 1)%nat).
    + f_equal. apply IH; lia.
    + destruct ((c =? 8232)%N || (c =? 8233)%N).
      * do 2 f_equal. apply IH; lia.
      * f_equal. apply IH; lia.
Qed.

Lemma appendString_loop_no_newline (fuel : nat) (src : string) :
  occurs newline (appendString_loop fuel src) = false.
Proof.
  revert src. induction fuel as [|fuel IH]; intros [|a rest]; try reflexivity.
  cbn [appendString_loop].
  destruct (byte_of a <? 128)%N eqn:Hb.
  - rewrite occurs_app, IH, orb_false_r. now apply ascii_unit_no_newline.
  - destruct (DecodeRuneInString (substring 0 4 (String a rest))) as [c size] eqn:Hd.
    apply N.ltb_ge in Hb.
    pose proof (proj2 (decode_spec a rest c size Hd) Hb) as Hhigh.
    destruct ((c =? RuneError)%N && (size =? 1)%nat).
    + rewrite occurs_app, IH. reflexivity.
    + destruct ((c =? 8232)%N || (c =? 8233)%N) eqn:Hc.
      * rewrite occurs_app. cbn [occurs]. rewrite IH.
        apply orb_true_iff in Hc as [Hc|Hc]; apply N.eqb_eq in Hc; subst c; reflexivity.
      * now rewrite occurs_app, IH, Hhigh.
Qed.

Lemma appendString_no_newline (src : string) : occurs newline (appendString src) = false.
Proof.
  unfold appendString. cbn [occurs]. rewrite occurs_app, appendString_loop_no_newline.
  reflexivity.
Qed.

Lemma uint_no_newline (d : Decimal.uint) :
  occurs newline (NilEmpty.string_of_uint d) = false.
Proof. induction d; simpl; auto. Qed.

Lemma FormatInt_no_newline (z : Z) : occurs newline (FormatInt z) = false.
Proof.
  unfold FormatInt. destruct (Z.to_int z) as [d|d]; simpl;
    destruct d; try reflexivity; apply (uint_no_newline (_ d)).
Qed.

Lemma member_no_newline (name value : string) :
  occurs newline name = false -> occurs newline value = false ->
  occurs newline (member name value) = false.
Proof.
  intros Hn Hv. unfold member. cbn [occurs]. rewrite occurs_app, Hn. cbn [occurs].
  rewrite occurs_app, Hv. reflexivity.
Qed.

Lemma members_no_newline (ms : list string) :
  Forall (fun m => occurs newline m = false) ms -> occurs newline (members ms) = false.
Proof.
  induction 1 as [|m ms Hm Hms IH]; [reflexivity|].
  cbn [members]. destruct ms as [|m' ms]; [exact Hm|].
  rewrite !occurs_app, Hm, IH. reflexivity.
Qed.

(** The encoding of a record is one object on one line. *)
Lemma Marshal_no_newline (m : Json.LogData) : occurs newline (Json.Marshal m) = false.
Proof.
  unfold Json.Marshal, object. rewrite !occurs_app, members_no_newline; [reflexivity|].
  repeat constructor;
    apply member_no_newline;
    first [reflexivity | apply appendString_no_newline | apply FormatInt_no_newline].
Qed.

Lemma Marshal_braces (m : Json.LogData) :
  exists body, Json.Marshal m = "{" ++ body ++ "}".
Proof. unfold Json.Marshal, object. eauto. Qed.

Lemma object_lastByte (ms : list string) : lastByte (object ms) = Some "}"%char.
Proof. unfold object. exact (lastByte_app_char (String "{" (members ms)) "}"). Qed.

Lemma Marshal_lastByte (m : Json.LogData) : lastByte (Json.Marshal m) = Some "}"%char.
Proof. apply object_lastByte. Qed.

End JsonFacts.

Lemma append_assoc (s t u : string) : (s ++ t) ++ u = s ++ t ++ u.
Proof.
  induction s as [|a s IH]; [reflexivity|].
  change (String a ((s ++ t) ++ u) = String a (s ++ t ++ u)). now rewrite IH.
Qed.

Lemma lastByte_app_object (s : string) (m : Json.LogData) :
  lastByte (s ++ Json.Marshal m) = Some "}"%char.
Proof.
  destruct (Marshal_braces m) as [body ->].
  change ("{" ++ body ++ "}") with (("{" ++ body) ++ "}").
  rewrite <- append_assoc. apply lastByte_app_char.
Qed.

(** C8, the claim as stated, on two records written one after the other
    to an empty directory: the file is the two objects back to back.  It
    holds no newline at all; the byte after the first object is the
    opening brace of the second, and the file ends in a closing brace. *)
Lemma json_file_has_no_delimiter :
  content (snd (Json.writeJSONToFile Sample.env
                  [(Sample.jsonRecord, NoFault); (Sample.jsonGeneric, NoFault)]
                  Sample.empty))
    "/home/snake/battlesnakeJSON/battlesnake.json"
  = Json.Marshal Sample.jsonRecord ++ Json.Marshal Sample.jsonGeneric
  /\ occurs GoJSON.newline
       (content (snd (Json.writeJSONToFile Sample.env
                        [(Sample.jsonRecord, NoFault); (Sample.jsonGeneric, NoFault)]
                        Sample.empty))
          "/home/snake/battlesnakeJSON/battlesnake.json") = false
  /\ get (String.length (Json.Marshal Sample.jsonRecord))
       (content (snd (Json.writeJSONToFile Sample.env
                        [(Sample.jsonRecord, NoFault); (Sample.jsonGeneric, NoFault)]
                        Sample.empty))
          "/home/snake/battlesnakeJSON/battlesnake.json") = Some "{"%char
  /\ lastByte
       (content (snd (Json.writeJSONToFile Sample.env
                        [(Sample.jsonRecord, NoFault); (Sample.jsonGeneric, NoFault)]
                        Sample.empty))
          "/home/snake/battlesnakeJSON/battlesnake.json") = Some "}"%char.
Proof. repeat split; vm_compute; reflexivity. Qed.

(** C8 as amended: the JSON sink appends to battlesnake.json exactly the
    bytes [json.Marshal] gives for the record, and nothing after them.
    These bytes are one object, from an opening to a closing brace, with
    no newline inside; the file ends in the closing brace, and the next
    record follows it directly. *)
Theorem json_records_are_appended_back_to_back (env : Env) (w : World) :
  forall pre m io, quiet pre -> survivable io = true ->
    let file := basedirOf env "/battlesnakeJSON" ++ "/battlesnake.json" in
    let w1 := snd (Json.writeJSONToFile env pre w) in
    let w2 := snd (Json.writeJSONToFile env (pre ++ [(m, io)]) w) in
    files w2 !! file = Some (content w1 file ++ Json.Marshal m)
    /\ (forall q, q <> file -> files w2 !! q = files w1 !! q)
    /\ (exists body, Json.Marshal m = "{" ++ body ++ "}")
    /\ occurs GoJSON.newline (Json.Marshal m) = false
    /\ lastByte (content w2 file) = Some "}"%char
    /\ (forall m' io', survivable io' = true ->
          content (snd (Json.writeJSONToFile env (pre ++ [(m, io); (m', io')]) w)) file
          = content w1 file ++ Json.Marshal m ++ Json.Marshal m').
Proof.
  intros pre m io Hq Hio. cbv zeta.
  rewrite !Json_writeJSONToFile_unfold, sinkLoop_next by assumption. simpl snd.
  repeat apply conj.
  - apply handled_target.
  - intros q Hne. now apply handled_other.
  - apply Marshal_braces.
  - apply Marshal_no_newline.
  - rewrite handled_content. apply lastByte_app_object.
  - intros m' io' Hio'.
    change (pre ++ [(m, io); (m', io')])%list with (pre ++ [(m, io)] ++ [(m', io')])%list.
    rewrite Json_writeJSONToFile_unfold, app_assoc, sinkLoop_next; try assumption.
    + simpl snd. rewrite sinkLoop_next by assumption. simpl snd.
      rewrite !handled_content. apply append_assoc.
    + apply Forall_app. split; [assumption | repeat constructor; assumption].
Qed.

Lemma json_records_are_appended_back_to_back_witness :
  files (snd (Json.writeJSONToFile Sample.env
                [(Sample.jsonGeneric, NoFault); (Sample.jsonRecord, CloseFails "close: EIO")]
                Sample.empty))
    !! "/home/snake/battlesnakeJSON/battlesnake.json"
  = Some (Json.Marshal Sample.jsonGeneric ++ Json.Marshal Sample.jsonRecord).
Proof.
  refine (proj1 (json_records_are_appended_back_to_back Sample.env Sample.empty
                   [(Sample.jsonGeneric, NoFault)] Sample.jsonRecord
                   (CloseFails "close: EIO") _ _)).
  - repeat constructor.
  - reflexivity.
Defined.

(** * Whole runs of a consumer loop *)

Lemma append_nil_r (s : string) : s ++ "" = s.
Proof.
  induction s as [|a s IH]; [reflexivity|].
  change (String a (s ++ "") = String a s). now rewrite IH.
Qed.

Lemma append_inj_r (s s' t : string) : s ++ t = s' ++ t -> s = s'.
Proof.
  revert s'. induction s as [|a s IH]; intros [|a' s'] H.
  - reflexivity.
  - apply (f_equal String.length) in H. rewrite !length_app in H. simpl in H. lia.
  - apply (f_equal String.length) in H. rewrite !length_app in H. simpl in H. lia.
  - change (String a (s ++ t) = String a' (s' ++ t)) in H.
    injection H as -> H. now rewrite (IH s' H).
Qed.

Lemma content_files (w w' : World) (p : string) :
  files w !! p = files w' !! p -> content w p = content w' p.
Proof. unfold content. now intros ->. Qed.

Section Runs.

Context {R : Type}.
Variable route : R -> string.
Variable bytes : R -> string.
Variable openFailed : string -> World -> Status * World.

(** What the two ways of giving up on a file have in common: they leave
    the files alone, they do not go back to waiting, and what they
    decide does not depend on the world. *)
Hypothesis openFailed_files : forall err w, files (snd (openFailed err w)) = files w.
Hypothesis openFailed_ends : forall err w, fst (openFailed err w) <> Blocked.
Hypothesis openFailed_status :
  forall err w w', fst (openFailed err w) = fst (openFailed err w').

Local Abbreviation run := (sinkLoop route bytes openFailed).

(** A run changes no file but those its records go to. *)
Lemma run_other_files c w p :
  Forall (fun x => route (fst x) <> p) c ->
  files (snd (run c w)) !! p = files w !! p.
Proof.
  intros Hc. revert w. induction Hc as [|[m io] c Hm _ IH]; intros w; [reflexivity|].
  simpl in Hm. destruct io; simpl; rewrite ?IH, ?openFailed_files; simpl;
    now rewrite ?lookup_insert_ne by congruence.
Qed.

(** A run only ever adds to the end of a file. *)
Lemma run_append_only c w p x :
  files w !! p = Some x ->
  exists y, files (snd (run c w)) !! p = Some (x ++ y).
Proof.
  revert w x. induction c as [|[m io] c IH]; intros w x Hx.
  - exists "". now rewrite append_nil_r.
  - assert (Hc : content w p = x) by (unfold content; now rewrite Hx).
    destruct (survivable io) eqn:Hio.
    + rewrite sinkLoop_step by assumption.
      destruct (decide (route m = p)) as [<-|Hne].
      * destruct (IH (handled (route m) (bytes m) io w) (x ++ bytes m)) as [y Hy].
        { now rewrite handled_target, Hc. }
        exists (bytes m ++ y). rewrite <- append_assoc. exact Hy.
      * apply IH. rewrite handled_other by congruence. exact Hx.
    + destruct io; try discriminate; simpl.
      * exists "". now rewrite openFailed_files, append_nil_r.
      * destruct (decide (route m = p)) as [<-|Hne].
        -- eexists. rewrite lookup_insert_eq. unfold content at 1. simpl.
           now rewrite lookup_insert_eq, Hc.
        -- exists "". now rewrite !lookup_insert_ne, append_nil_r by congruence.
Qed.

(** After a run with no fatal fault a file holds what it held, then the
    bytes of the records that went to it, in the order of the channel. *)
Lemma run_quiet_content c w p :
  quiet c -> content (snd (run c w)) p = content w p ++ routed route bytes p c.
Proof.
  intros Hq. revert w. induction Hq as [|[m io] c Hio _ IH]; intros w.
  - simpl. now rewrite append_nil_r.
  - simpl in Hio. rewrite sinkLoop_step by assumption. rewrite IH.
    cbn [routed]. destruct (decide (route m = p)) as [<-|Hne].
    + now rewrite handled_content, append_assoc.
    + f_equal. apply content_files. apply handled_other. congruence.
Qed.

(** The loop goes back to waiting exactly when no open and no write
    failed. *)
Lemma run_blocked_iff c w : fst (run c w) = Blocked <-> quiet c.
Proof.
  split.
  - revert w. induction c as [|[m io] c IH]; intros w H; [constructor|].
    destruct io; simpl in H.
    + constructor; [reflexivity | eapply IH; exact H].
    + now apply openFailed_ends in H.
    + discriminate.
    + constructor; [reflexivity | eapply IH; exact H].
  - intros Hq. exact (proj1 (sinkLoop_app route bytes openFailed c [] w Hq)).
Qed.

(** A failing write: the loop is left, the error is printed, the file
    keeps the bytes that went out, and the records behind are dropped. *)
Lemma run_write_fails pre m n err rest w :
  quiet pre ->
  let w1 := snd (run pre w) in
  let w2 := snd (run (pre ++ (m, WriteFails n err) :: rest) w) in
  fst (run (pre ++ (m, WriteFails n err) :: rest) w) = Finished
  /\ files w2 !! route m = Some (content w1 (route m) ++ substring 0 n (bytes m))
  /\ (forall q, q <> route m -> files w2 !! q = files w1 !! q)
  /\ stdout w2 = (stdout w1 ++ [err])%list
  /\ stderr w2 = stderr w1.
Proof.
  intros Hq. cbv zeta. rewrite (proj2 (sinkLoop_app route bytes openFailed pre _ w Hq)).
  generalize (snd (run pre w)). intros w1. simpl. repeat apply conj; try reflexivity.
  - rewrite lookup_insert_eq. unfold content at 1. simpl. now rewrite lookup_insert_eq.
  - intros q Hne. now rewrite !lookup_insert_ne by congruence.
Qed.

(** What a run does to the files, and how it ends, depends on the files
    it starts from only, and not on whether a [Close] failed. *)
Lemma run_calm c w w' :
  files w = files w' ->
  fst (run c w) = fst (run (calm c) w')
  /\ files (snd (run c w)) = files (snd (run (calm c) w')).
Proof.
  revert w w'. induction c as [|[m io] c IH]; intros w w' Hf; [now split|].
  assert (Hc : forall p, content w p = content w' p)
    by (intros p; apply content_files; now rewrite Hf).
  destruct io; cbn [calm map fst snd sinkLoop OpenFile Write Close].
  - apply IH. simpl. now rewrite Hf, !Hc.
  - split; [apply openFailed_status | now rewrite !openFailed_files].
  - split; [reflexivity|]. simpl. unfold content. simpl. now rewrite Hf.
  - apply IH. simpl. unfold content. simpl. now rewrite Hf.
Qed.

Lemma run_same_files c w w' :
  files w = files w' ->
  fst (run c w) = fst (run c w') /\ files (snd (run c w)) = files (snd (run c w')).
Proof.
  intros Hf.
  destruct (run_calm c w w' Hf) as [H1 H2].
  destruct (run_calm c w' w' eq_refl) as [H3 H4].
  split; congruence.
Qed.

(** A run reads no file but those its records go to. *)
Lemma run_reads_own_files c w w' :
  (forall p, Exists (fun x => route (fst x) = p) c -> files w !! p = files w' !! p) ->
  fst (run c w) = fst (run c w')
  /\ forall p, Exists (fun x => route (fst x) = p) c ->
       files (snd (run c w)) !! p = files (snd (run c w')) !! p.
Proof.
  revert w w'. induction c as [|[m io] c IH]; intros w w' Hf.
  - split; [reflexivity | intros p Hp; inversion Hp].
  - assert (Hm : files w !! route m = files w' !! route m) by (apply Hf; now left).
    destruct (survivable io) eqn:Hio.
    + rewrite !sinkLoop_step by assumption.
      destruct (IH (handled (route m) (bytes m) io w)
                   (handled (route m) (bytes m) io w')) as [H1 H2].
      { intros p Hp. destruct (decide (p = route m)) as [->|Hne].
        - rewrite !handled_target. unfold content. now rewrite Hm.
        - rewrite !handled_other by assumption. apply Hf. now right. }
      split; [exact H1|]. intros p Hp.
      destruct (decide (Exists (fun x => route (fst x) = p) c)) as [He|He];
        [now apply H2|].
      apply Exists_cons in Hp as [Hp|Hp]; [|contradiction]. simpl in Hp. subst p.
      apply not_Exists_Forall in He; [|intros x; apply _].
      rewrite !run_other_files by exact He.
      rewrite !handled_target. unfold content. now rewrite Hm.
    + destruct io; try discriminate; cbn [sinkLoop OpenFile Write Close].
      * split; [apply openFailed_status|]. intros p Hp.
        rewrite !openFailed_files. now apply Hf.
      * split; [reflexivity|]. intros p Hp. simpl. unfold content. simpl.
        destruct (decide (p = route m)) as [->|Hne].
        -- rewrite !lookup_insert_eq. simpl. now rewrite Hm.
        -- rewrite !lookup_insert_ne by congruence. now apply Hf.
Qed.

End Runs.

Section GivingUp.

Lemma fatal_files err w : files (snd (fatal err w)) = files w.
Proof. reflexivity. Qed.

Lemma fatal_ends err w : fst (fatal err w) <> Blocked.
Proof. discriminate. Qed.

Lemma fatal_status err w w' : fst (fatal err w) = fst (fatal err w').
Proof. reflexivity. Qed.

Lemma giveUp_files err w : files (snd (giveUp err w)) = files w.
Proof. reflexivity. Qed.

Lemma giveUp_ends err w : fst (giveUp err w) <> Blocked.
Proof. discriminate. Qed.

Lemma giveUp_status err w w' : fst (giveUp err w) = fst (giveUp err w').
Proof. reflexivity. Qed.

Lemma setup_content_Json env sub w p :
  content (snd (Json.setup env sub w)) p = content w p.
Proof. apply content_files. now rewrite (proj2 (Json_setup_spec env sub w)). Qed.

Lemma setup_content_Basic env sub w p :
  content (snd (Basic.setup env sub w)) p = content w p.
Proof. apply content_files. now rewrite (proj2 (Basic_setup_spec env sub w)). Qed.

Lemma setup_content_Named env sub w p :
  content (snd (Named.setup env sub w)) p = content w p.
Proof. apply content_files. now rewrite (proj2 (Named_setup_spec env sub w)). Qed.

End GivingUp.

(** Rewrites a writer into its loop over the world the set-up leaves. *)
Ltac to_loop :=
  rewrite ?Json_writeToFile_unfold, ?Basic_writeToFile_unfold,
    ?Named_writeToFile_unfold, ?Json_writeJSONToFile_unfold.

(** X1: a writer goes back to waiting for the next record exactly when
    no open and no write failed among the records delivered so far; a
    failing [Close] does not stop it. *)
Theorem writer_waits_iff_quiet (env : Env) (w : World) :
  (forall c, fst (Json.writeToFile env c w) = Blocked <-> quiet c)
  /\ (forall c, fst (Basic.writeToFile env c w) = Blocked <-> quiet c)
  /\ (forall c, fst (Named.writeToFile env c w) = Blocked <-> quiet c)
  /\ (forall c, fst (Json.writeJSONToFile env c w) = Blocked <-> quiet c).
Proof.
  repeat apply conj; intros c; to_loop.
  - apply run_blocked_iff, fatal_ends.
  - apply run_blocked_iff, fatal_ends.
  - apply run_blocked_iff, fatal_ends.
  - apply run_blocked_iff, giveUp_ends.
Qed.

Lemma writer_waits_iff_quiet_witness :
  fst (Named.writeToFile Sample.env
         [(Sample.namedGeneric, CloseFails "close: EIO"); (Sample.namedGeneric, NoFault)]
         Sample.empty) = Blocked.
Proof.
  apply (proj1 (proj2 (proj2 (writer_waits_iff_quiet Sample.env Sample.empty)))).
  repeat constructor.
Defined.

(** X2: the log files are append-only.  Whatever records arrive and
    whatever fails meanwhile, a file that exists keeps existing and what
    it held stays at its start. *)
Theorem log_files_only_grow (env : Env) (w : World) (p x : string) :
  files w !! p = Some x ->
  (forall c, exists y, files (snd (Json.writeToFile env c w)) !! p = Some (x ++ y))
  /\ (forall c, exists y, files (snd (Basic.writeToFile env c w)) !! p = Some (x ++ y))
  /\ (forall c, exists y, files (snd (Named.writeToFile env c w)) !! p = Some (x ++ y))
  /\ (forall c, exists y, files (snd (Json.writeJSONToFile env c w)) !! p = Some (x ++ y)).
Proof.
  intros Hx. repeat apply conj; intros c; to_loop.
  - apply run_append_only; [apply fatal_files|].
    now rewrite (proj2 (Json_setup_spec env _ w)).
  - apply run_append_only; [apply fatal_files|].
    now rewrite (proj2 (Basic_setup_spec env _ w)).
  - apply run_append_only; [apply fatal_files|].
    now rewrite (proj2 (Named_setup_spec env _ w)).
  - apply run_append_only; [apply giveUp_files|].
    now rewrite (proj2 (Json_setup_spec env _ w)).
Qed.

Lemma log_files_only_grow_witness :
  exists y,
    files (snd (Json.writeToFile Sample.env
                  [(Sample.jsonRecord, WriteFails 5 "write: disk full");
                   (Sample.jsonRecord, NoFault)]
                  {| files := {[ "/home/snake/battlesnakeLogs/game-abc.log" := "old " ]};
                     stdout := []; stderr := [] |}))
      !! "/home/snake/battlesnakeLogs/game-abc.log"
    = Some ("old " ++ y).
Proof.
  apply (proj1 (log_files_only_grow Sample.env _ _ "old " (lookup_singleton_eq _ _))).
Defined.

(** X3: a writer whose records have routing keys without a slash
    changes no other entry of its directory: a file of the base
    directory that is not the file of one of the records is as it was,
    under every fault; the JSON writer changes no entry of its directory
    but battlesnake.json. *)
Theorem writer_touches_only_routed_files (env : Env) (w : World) (q : string) :
  plain q = true ->
  (forall c,
     Forall (fun x => plain (Json.ID (fst x)) = true) c ->
     Forall (fun x => Json.filename (basedirOf env "/battlesnakeLogs") (fst x)
                      <> basedirOf env "/battlesnakeLogs" ++ "/" ++ q) c ->
     files (snd (Json.writeToFile env c w)) !! (basedirOf env "/battlesnakeLogs" ++ "/" ++ q)
     = files w !! (basedirOf env "/battlesnakeLogs" ++ "/" ++ q))
  /\ (forall c,
     Forall (fun x => plain (Basic.ID (fst x)) = true) c ->
     Forall (fun x => Basic.filename (basedirOf env "/battlesnakeLogs") (fst x)
                      <> basedirOf env "/battlesnakeLogs" ++ "/" ++ q) c ->
     files (snd (Basic.writeToFile env c w)) !! (basedirOf env "/battlesnakeLogs" ++ "/" ++ q)
     = files w !! (basedirOf env "/battlesnakeLogs" ++ "/" ++ q))
  /\ (forall c,
     Forall (fun x => plain (Named.SnakeName (fst x)) = true) c ->
     Forall (fun x => Named.filename (basedirOf env "/battlesnakeLogs") (fst x)
                      <> basedirOf env "/battlesnakeLogs" ++ "/" ++ q) c ->
     files (snd (Named.writeToFile env c w)) !! (basedirOf env "/battlesnakeLogs" ++ "/" ++ q)
     = files w !! (basedirOf env "/battlesnakeLogs" ++ "/" ++ q))
  /\ (forall c,
     q <> "battlesnake.json" ->
     files (snd (Json.writeJSONToFile env c w))
       !! (basedirOf env "/battlesnakeJSON" ++ "/" ++ q)
     = files w !! (basedirOf env "/battlesnakeJSON" ++ "/" ++ q)).
Proof.
  intros _. repeat apply conj; intros c.
  - intros _ Hc. to_loop. rewrite run_other_files; [| apply fatal_files | exact Hc].
    now rewrite (proj2 (Json_setup_spec env _ w)).
  - intros _ Hc. to_loop. rewrite run_other_files; [| apply fatal_files | exact Hc].
    now rewrite (proj2 (Basic_setup_spec env _ w)).
  - intros _ Hc. to_loop. rewrite run_other_files; [| apply fatal_files | exact Hc].
    now rewrite (proj2 (Named_setup_spec env _ w)).
  - intros Hq. to_loop. rewrite run_other_files; [| apply giveUp_files |].
    + now rewrite (proj2 (Json_setup_spec env _ w)).
    + apply Forall_forall. intros x _ E. apply append_inj_l in E.
      injection E as E. now destruct Hq.
Qed.

Lemma writer_touches_only_routed_files_witness :
  files (snd (Json.writeToFile Sample.env
                [(Sample.jsonRecord, NoFault); (Sample.jsonGeneric, WriteFails 3 "write: EIO")]
                {| files := {[ "/home/snake/battlesnakeLogs/game-xyz.log" := "kept" ]};
                   stdout := []; stderr := [] |}))
    !! "/home/snake/battlesnakeLogs/game-xyz.log"
  = Some "kept".
Proof.
  refine (proj1 (writer_touches_only_routed_files Sample.env _ "game-xyz.log" _) _ _ _).
  - reflexivity.
  - repeat constructor.
  - repeat constructor; vm_compute; discriminate.
Defined.

Lemma routed_by_key {R : Type} (route key bytes : R -> string) (m0 : R) c :
  (forall m, route m = route m0 <-> key m = key m0) ->
  routed route bytes (route m0) c = routed key bytes (key m0) c.
Proof.
  intros Hk. induction c as [|[m io] c IH]; [reflexivity|].
  cbn [routed]. rewrite IH.
  destruct (decide (route m = route m0)) as [E|E], (decide (key m = key m0)) as [E'|E'];
    try reflexivity.
  - now apply Hk in E.
  - now apply Hk in E'.
Qed.

Lemma routed_all {R : Type} (bytes : R -> string) (file : string) c :
  routed (fun _ => file) bytes file c = written bytes c.
Proof.
  induction c as [|[m io] c IH]; [reflexivity|].
  cbn [routed written]. rewrite IH. now destruct (decide (file = file)).
Qed.

(** The path built for a record says which key the record has. *)
Lemma Json_filename_inj basedir (m1 m2 : Json.LogData) :
  Json.filename basedir m1 = Json.filename basedir m2 <-> Json.ID m1 = Json.ID m2.
Proof.
  unfold Json.filename. split; [|now intros ->].
  destruct (decide (Json.ID m1 = "")) as [->|H1],
           (decide (Json.ID m2 = "")) as [->|H2]; intros E;
    apply append_inj_l in E; try reflexivity; try discriminate E.
  apply (append_inj_l "/game-") in E. now apply append_inj_r in E.
Qed.

Lemma Basic_filename_inj basedir (m1 m2 : Basic.LogData) :
  Basic.filename basedir m1 = Basic.filename basedir m2 <-> Basic.ID m1 = Basic.ID m2.
Proof.
  unfold Basic.filename. split; [|now intros ->].
  destruct (decide (Basic.ID m1 = "")) as [->|H1],
           (decide (Basic.ID m2 = "")) as [->|H2]; intros E;
    apply append_inj_l in E; try reflexivity; try discriminate E.
  apply (append_inj_l "/game-") in E. now apply append_inj_r in E.
Qed.

Lemma Named_filename_inj basedir (m1 m2 : Named.LogData) :
  Named.filename basedir m1 = Named.filename basedir m2
  <-> Named.SnakeName m1 = Named.SnakeName m2.
Proof.
  unfold Named.filename. split; [|now intros ->].
  destruct (decide (Named.SnakeName m1 = "")) as [->|H1],
           (decide (Named.SnakeName m2 = "")) as [->|H2]; intros E;
    apply append_inj_l in E; try reflexivity; try discriminate E.
  apply (append_inj_l "/") in E. now apply append_inj_r in E.
Qed.

(** X4: records with the same routing key reach their file in the order
    of the channel, whatever records with other keys come between.  For
    routing keys without a slash, after records that met no open and no
    write failure the file of a key holds what it held before, followed
    by the bytes of the records with that key, in the order the channel
    delivered them; the JSON file holds what it held, followed by the
    encodings of all the records in that order. *)
Theorem quiet_run_appends_in_channel_order (env : Env) (w : World) :
  (forall c m0, quiet c ->
     plain (Json.ID m0) = true ->
     Forall (fun x => plain (Json.ID (fst x)) = true) c ->
     content (snd (Json.writeToFile env c w))
       (Json.filename (basedirOf env "/battlesnakeLogs") m0)
     = content w (Json.filename (basedirOf env "/battlesnakeLogs") m0)
       ++ routed Json.ID Json.Bytes (Json.ID m0) c)
  /\ (forall c m0, quiet c ->
     plain (Basic.ID m0) = true ->
     Forall (fun x => plain (Basic.ID (fst x)) = true) c ->
     content (snd (Basic.writeToFile env c w))
       (Basic.filename (basedirOf env "/battlesnakeLogs") m0)
     = content w (Basic.filename (basedirOf env "/battlesnakeLogs") m0)
       ++ routed Basic.ID Basic.Bytes (Basic.ID m0) c)
  /\ (forall c m0, quiet c ->
     plain (Named.SnakeName m0) = true ->
     Forall (fun x => plain (Named.SnakeName (fst x)) = true) c ->
     content (snd (Named.writeToFile env c w))
       (Named.filename (basedirOf env "/battlesnakeLogs") m0)
     = content w (Named.filename (basedirOf env "/battlesnakeLogs") m0)
       ++ routed Named.SnakeName Named.Bytes (Named.SnakeName m0) c)
  /\ (forall c, quiet c ->
     content (snd (Json.writeJSONToFile env c w))
       (basedirOf env "/battlesnakeJSON" ++ "/battlesnake.json")
     = content w (basedirOf env "/battlesnakeJSON" ++ "/battlesnake.json")
       ++ written Json.Marshal c).
Proof.
  repeat apply conj.
  - intros c m0 Hq _ _. to_loop. rewrite run_quiet_content by assumption.
    rewrite setup_content_Json. f_equal.
    apply routed_by_key. intros m. apply Json_filename_inj.
  - intros c m0 Hq _ _. to_loop. rewrite run_quiet_content by assumption.
    rewrite setup_content_Basic. f_equal.
    apply routed_by_key. intros m. apply Basic_filename_inj.
  - intros c m0 Hq _ _. to_loop. rewrite run_quiet_content by assumption.
    rewrite setup_content_Named. f_equal.
    apply routed_by_key. intros m. apply Named_filename_inj.
  - intros c Hq. to_loop. rewrite run_quiet_content by assumption.
    now rewrite setup_content_Json, routed_all.
Qed.

Lemma quiet_run_appends_in_channel_order_witness :
  content (snd (Json.writeToFile Sample.env
                  [(Sample.jsonRecord, NoFault); (Sample.jsonGeneric, NoFault);
                   (Sample.jsonRecord, CloseFails "close: EIO")]
                  Sample.empty))
    "/home/snake/battlesnakeLogs/game-abc.log"
  = Json.Bytes Sample.jsonRecord ++ Json.Bytes Sample.jsonRecord.
Proof.
  refine (proj1 (quiet_run_appends_in_channel_order Sample.env Sample.empty)
            _ Sample.jsonRecord _ _ _).
  - repeat constructor.
  - reflexivity.
  - repeat constructor.
Defined.



(** X6: a failing [Close] costs nothing but a line on standard output:
    the run ends the same way and leaves the same files as if every
    [Close] had succeeded. *)
Theorem close_failure_is_harmless (env : Env) (w : World) :
  (forall c,
     fst (Json.writeToFile env c w) = fst (Json.writeToFile env (calm c) w)
     /\ files (snd (Json.writeToFile env c w))
        = files (snd (Json.writeToFile env (calm c) w)))
  /\ (forall c,
     fst (Basic.writeToFile env c w) = fst (Basic.writeToFile env (calm c) w)
     /\ files (snd (Basic.writeToFile env c w))
        = files (snd (Basic.writeToFile env (calm c) w)))
  /\ (forall c,
     fst (Named.writeToFile env c w) = fst (Named.writeToFile env (calm c) w)
     /\ files (snd (Named.writeToFile env c w))
        = files (snd (Named.writeToFile env (calm c) w)))
  /\ (forall c,
     fst (Json.writeJSONToFile env c w) = fst (Json.writeJSONToFile env (calm c) w)
     /\ files (snd (Json.writeJSONToFile env c w))
        = files (snd (Json.writeJSONToFile env (calm c) w))).
Proof.
  repeat apply conj; intros c; to_loop.
  - apply run_calm; [apply fatal_files | apply fatal_status | reflexivity].
  - apply run_calm; [apply fatal_files | apply fatal_status | reflexivity].
  - apply run_calm; [apply fatal_files | apply fatal_status | reflexivity].
  - apply run_calm; [apply giveUp_files | apply giveUp_status | reflexivity].
Qed.

(** X7: the directory set-up never ends a writer by itself.  Whatever
    [os.Mkdir] returns, a writer that has no record to handle is left
    waiting, with the files and standard error as they were; an error
    other than "exists" only adds one line to standard output.  "Exists"
    counts as success, and an unset HOME works as HOME=/tmp: two
    environments that lead to the same directory, in both of which the
    directory is there after [os.Mkdir], give runs that end the same way
    and leave the same files. *)
Theorem directory_setup_is_not_fatal (w : World) :
  (forall env,
     (fst (Json.writeToFile env [] w) = Blocked
      /\ files (snd (Json.writeToFile env [] w)) = files w
      /\ stderr (snd (Json.writeToFile env [] w)) = stderr w)
     /\ (fst (Basic.writeToFile env [] w) = Blocked
      /\ files (snd (Basic.writeToFile env [] w)) = files w
      /\ stderr (snd (Basic.writeToFile env [] w)) = stderr w)
     /\ (fst (Named.writeToFile env [] w) = Blocked
      /\ files (snd (Named.writeToFile env [] w)) = files w
      /\ stderr (snd (Named.writeToFile env [] w)) = stderr w)
     /\ (fst (Json.writeJSONToFile env [] w) = Blocked
      /\ files (snd (Json.writeJSONToFile env [] w)) = files w
      /\ stderr (snd (Json.writeJSONToFile env [] w)) = stderr w))
  /\ (forall home err,
     stdout (snd (Json.writeToFile {| HOME := home; mkdir := MkdirError err |} [] w))
     = (stdout (snd (Json.writeToFile {| HOME := home; mkdir := MkdirOk |} [] w))
        ++ [("I don't understand this error:  " ++ err)%string])%list
     /\ stdout (snd (Basic.writeToFile {| HOME := home; mkdir := MkdirError err |} [] w))
     = (stdout (snd (Basic.writeToFile {| HOME := home; mkdir := MkdirOk |} [] w))
        ++ [("I don't understand this error:  " ++ err)%string])%list
     /\ stdout (snd (Named.writeToFile {| HOME := home; mkdir := MkdirError err |} [] w))
     = (stdout (snd (Named.writeToFile {| HOME := home; mkdir := MkdirOk |} [] w))
        ++ [("I don't understand this error:  " ++ err)%string])%list
     /\ stdout (snd (Json.writeJSONToFile {| HOME := home; mkdir := MkdirError err |} [] w))
     = (stdout (snd (Json.writeJSONToFile {| HOME := home; mkdir := MkdirOk |} [] w))
        ++ [("I don't understand this error:  " ++ err)%string])%list)
  /\ (forall home c,
     Json.writeToFile {| HOME := home; mkdir := MkdirExists |} c w
     = Json.writeToFile {| HOME := home; mkdir := MkdirOk |} c w)
  /\ (forall home c,
     Basic.writeToFile {| HOME := home; mkdir := MkdirExists |} c w
     = Basic.writeToFile {| HOME := home; mkdir := MkdirOk |} c w)
  /\ (forall home c,
     Named.writeToFile {| HOME := home; mkdir := MkdirExists |} c w
     = Named.writeToFile {| HOME := home; mkdir := MkdirOk |} c w)
  /\ (forall home c,
     Json.writeJSONToFile {| HOME := home; mkdir := MkdirExists |} c w
     = Json.writeJSONToFile {| HOME := home; mkdir := MkdirOk |} c w)
  /\ (forall env1 env2,
     created (mkdir env1) = true -> created (mkdir env2) = true ->
     (if decide (HOME env1 = "") then "/tmp" else HOME env1)
     = (if decide (HOME env2 = "") then "/tmp" else HOME env2) ->
     (forall c,
        fst (Json.writeToFile env1 c w) = fst (Json.writeToFile env2 c w)
        /\ files (snd (Json.writeToFile env1 c w)) = files (snd (Json.writeToFile env2 c w)))
     /\ (forall c,
        fst (Basic.writeToFile env1 c w) = fst (Basic.writeToFile env2 c w)
        /\ files (snd (Basic.writeToFile env1 c w))
           = files (snd (Basic.writeToFile env2 c w)))
     /\ (forall c,
        fst (Named.writeToFile env1 c w) = fst (Named.writeToFile env2 c w)
        /\ files (snd (Named.writeToFile env1 c w))
           = files (snd (Named.writeToFile env2 c w)))
     /\ (forall c,
        fst (Json.writeJSONToFile env1 c w) = fst (Json.writeJSONToFile env2 c w)
        /\ files (snd (Json.writeJSONToFile env1 c w))
           = files (snd (Json.writeJSONToFile env2 c w)))).
Proof.
  repeat apply conj.
  - intros env. to_loop. cbn [sinkLoop fst snd].
    rewrite (proj2 (Json_setup_spec env _ w)), (proj2 (Basic_setup_spec env _ w)),
      (proj2 (Named_setup_spec env _ w)), (proj2 (Json_setup_spec env _ w)).
    unfold Json.setup, Basic.setup, Named.setup.
    destruct (decide (HOME env = "")); destruct (mkdir env); repeat split.
  - intros home err. to_loop. cbn [sinkLoop fst snd].
    unfold Json.setup, Basic.setup, Named.setup. cbn [HOME mkdir].
    destruct (decide (home = "")); repeat split.
  - intros home c. reflexivity.
  - intros home c. reflexivity.
  - intros home c. reflexivity.
  - intros home c. reflexivity.
  - intros env1 env2 _ _ Hdir.
    assert (Hb : forall sub, basedirOf env1 sub = basedirOf env2 sub)
      by (intros sub; unfold basedirOf; now rewrite Hdir).
    repeat apply conj; intros c; to_loop; rewrite Hb.
    + apply run_same_files; [apply fatal_files | apply fatal_status |].
      now rewrite (proj2 (Json_setup_spec env1 _ w)), (proj2 (Json_setup_spec env2 _ w)).
    + apply run_same_files; [apply fatal_files | apply fatal_status |].
      now rewrite (proj2 (Basic_setup_spec env1 _ w)), (proj2 (Basic_setup_spec env2 _ w)).
    + apply run_same_files; [apply fatal_files | apply fatal_status |].
      now rewrite (proj2 (Named_setup_spec env1 _ w)), (proj2 (Named_setup_spec env2 _ w)).
    + apply run_same_files; [apply giveUp_files | apply giveUp_status |].
      now rewrite (proj2 (Json_setup_spec env1 _ w)), (proj2 (Json_setup_spec env2 _ w)).
Qed.

Lemma directory_setup_is_not_fatal_witness :
  files (snd (Json.writeToFile {| HOME := ""; mkdir := MkdirExists |}
                [(Sample.jsonRecord, NoFault)] Sample.empty))
  = files (snd (Json.writeToFile {| HOME := "/tmp"; mkdir := MkdirOk |}
                  [(Sample.jsonRecord, NoFault)] Sample.empty)).
Proof.
  apply (proj1 (proj2 (proj2 (proj2 (proj2 (proj2 (proj2
           (directory_setup_is_not_fatal Sample.empty))))))
           {| HOME := ""; mkdir := MkdirExists |} {| HOME := "/tmp"; mkdir := MkdirOk |}
           eq_refl eq_refl eq_refl)).
Defined.

(** * One file per key *)

Lemma plain_app (s t : string) : plain (s ++ t) = plain s && plain t.
Proof. unfold plain. rewrite occurs_app. now destruct (occurs "/" s). Qed.

(** X8: the path a writer builds for a record, the one it hands to
    [os.OpenFile], is a one-to-one function of the routing key.  Under
    id-based routing two records get the same path exactly when they
    have the same ID (the empty ID being the key of generic.log); under
    name-based routing, exactly when they have the same SnakeName.  For
    a key without a slash the path is the base directory, a slash and a
    file name without a slash, so that different keys of this kind name
    different entries of the base directory (in the third snapshot, for
    a name that is not empty). *)
Theorem one_file_per_key (basedir : string) :
  (forall m1 m2 : Json.LogData,
     Json.filename basedir m1 = Json.filename basedir m2 <-> Json.ID m1 = Json.ID m2)
  /\ (forall m1 m2 : Basic.LogData,
     Basic.filename basedir m1 = Basic.filename basedir m2 <-> Basic.ID m1 = Basic.ID m2)
  /\ (forall m1 m2 : Named.LogData,
     Named.filename basedir m1 = Named.filename basedir m2
     <-> Named.SnakeName m1 = Named.SnakeName m2)
  /\ (forall m : Json.LogData, plain (Json.ID m) = true ->
     exists entry, plain entry = true /\ Json.filename basedir m = basedir ++ "/" ++ entry)
  /\ (forall m : Basic.LogData, plain (Basic.ID m) = true ->
     exists entry, plain entry = true /\ Basic.filename basedir m = basedir ++ "/" ++ entry)
  /\ (forall m : Named.LogData,
     plain (Named.SnakeName m) = true -> Named.SnakeName m <> "" ->
     exists entry, plain entry = true /\ Named.filename basedir m = basedir ++ "/" ++ entry).
Proof.
  repeat apply conj.
  - intros m1 m2. apply Json_filename_inj.
  - intros m1 m2. apply Basic_filename_inj.
  - intros m1 m2. apply Named_filename_inj.
  - intros m Hp. unfold Json.filename. destruct (decide (Json.ID m = "")).
    + exists "generic.log". split; reflexivity.
    + exists ("game-" ++ Json.ID m ++ ".log"). split; [|reflexivity].
      now rewrite !plain_app, Hp.
  - intros m Hp. unfold Basic.filename. destruct (decide (Basic.ID m = "")).
    + exists "generic.log". split; reflexivity.
    + exists ("game-" ++ Basic.ID m ++ ".log"). split; [|reflexivity].
      now rewrite !plain_app, Hp.
  - intros m Hp Hne. unfold Named.filename.
    destruct (decide (Named.SnakeName m = "")); [contradiction|].
    exists (Named.SnakeName m ++ ".log"). split; [|reflexivity].
    now rewrite plain_app, Hp.
Qed.

Lemma one_file_per_key_witness :
  Json.filename "/home/snake/battlesnakeLogs" Sample.jsonRecord
  <> Json.filename "/home/snake/battlesnakeLogs" Sample.jsonGeneric
  /\ exists entry,
       plain entry = true
       /\ Json.filename "/home/snake/battlesnakeLogs" Sample.jsonRecord
          = "/home/snake/battlesnakeLogs" ++ "/" ++ entry.
Proof.
  split.
  - intros E.
    apply (proj1 (proj1 (one_file_per_key "/home/snake/battlesnakeLogs")
                    Sample.jsonRecord Sample.jsonGeneric)) in E.
    discriminate E.
  - apply (proj1 (proj2 (proj2 (proj2 (one_file_per_key "/home/snake/battlesnakeLogs"))))).
    reflexivity.
Defined.

(** * Two sinks side by side *)
Section TwoSinks.

Context {R1 R2 : Type}.
Variable route1 : R1 -> string.
Variable bytes1 : R1 -> string.
Variable openFailed1 : string -> World -> Status * World.
Variable route2 : R2 -> string.
Variable bytes2 : R2 -> string.
Variable openFailed2 : string -> World -> Status * World.

Hypothesis files1 : forall err w, files (snd (openFailed1 err w)) = files w.
Hypothesis status1 : forall err w w', fst (openFailed1 err w) = fst (openFailed1 err w').
Hypothesis files2 : forall err w, files (snd (openFailed2 err w)) = files w.
Hypothesis status2 : forall err w w', fst (openFailed2 err w) = fst (openFailed2 err w').

(** The two sinks never pick the same file. *)
Hypothesis apart : forall m1 m2, route1 m1 <> route2 m2.

Local Abbreviation run1 := (sinkLoop route1 bytes1 openFailed1).
Local Abbreviation run2 := (sinkLoop route2 bytes2 openFailed2).

Lemma reached_apart_1 c2 p c1 :
  Exists (fun x : R1 * Fault => route1 (fst x) = p) c1 ->
  Forall (fun x : R2 * Fault => route2 (fst x) <> p) c2.
Proof.
  intros He. apply Exists_exists in He as ([m1 io1] & _ & <-).
  apply Forall_forall. intros [m2 io2] _ E. exact (apart m1 m2 (eq_sym E)).
Qed.

Lemma reached_apart_2 c1 p c2 :
  Exists (fun x : R2 * Fault => route2 (fst x) = p) c2 ->
  Forall (fun x : R1 * Fault => route1 (fst x) <> p) c1.
Proof.
  intros He. apply Exists_exists in He as ([m2 io2] & _ & <-).
  apply Forall_forall. intros [m1 io1] _ E. exact (apart m1 m2 E).
Qed.

(** Either sink may go first: each ends as it would alone, and the
    files are the same in the end. *)
Lemma runs_commute c1 c2 (w a a' b b' : World) :
  files a = files w -> files b = files w ->
  files a' = files (snd (run2 c2 b)) ->
  files b' = files (snd (run1 c1 a)) ->
  fst (run1 c1 a') = fst (run1 c1 a)
  /\ fst (run2 c2 b') = fst (run2 c2 b)
  /\ files (snd (run1 c1 a')) = files (snd (run2 c2 b')).
Proof.
  intros Ha Hb Ha' Hb'.
  assert (H1 : forall p, Exists (fun x => route1 (fst x) = p) c1 ->
                         files a' !! p = files a !! p).
  { intros p Hp. rewrite Ha', run_other_files, Hb, Ha;
      [reflexivity | exact files2 | now apply reached_apart_1 with c1]. }
  assert (H2 : forall p, Exists (fun x => route2 (fst x) = p) c2 ->
                         files b' !! p = files b !! p).
  { intros p Hp. rewrite Hb', run_other_files, Ha, Hb;
      [reflexivity | exact files1 | now apply reached_apart_2 with c2]. }
  destruct (run_reads_own_files route1 bytes1 openFailed1 files1 status1 c1 a' a H1)
    as [S1 F1].
  destruct (run_reads_own_files route2 bytes2 openFailed2 files2 status2 c2 b' b H2)
    as [S2 F2].
  repeat apply conj; [exact S1 | exact S2 |].
  apply map_eq. intros p.
  destruct (decide (Exists (fun x => route1 (fst x) = p) c1)) as [E1|E1].
  - rewrite (F1 p E1).
    rewrite (run_other_files route2 bytes2 openFailed2 files2 c2 b' p)
      by (now apply reached_apart_1 with c1).
    now rewrite Hb'.
  - apply not_Exists_Forall in E1; [|intros x; apply _].
    rewrite (run_other_files route1 bytes1 openFailed1 files1 c1 a' p E1), Ha'.
    destruct (decide (Exists (fun x => route2 (fst x) = p) c2)) as [E2|E2].
    + now rewrite (F2 p E2).
    + apply not_Exists_Forall in E2; [|intros x; apply _].
      rewrite !(run_other_files route2 bytes2 openFailed2 files2 c2 _ p E2).
      rewrite Hb', (run_other_files route1 bytes1 openFailed1 files1 c1 a p E1).
      now rewrite Ha, Hb.
Qed.

End TwoSinks.

Lemma text_and_json_files_apart (env : Env) (m : Json.LogData) :
  Json.filename (basedirOf env "/battlesnakeLogs") m
  <> basedirOf env "/battlesnakeJSON" ++ "/battlesnake.json".
Proof.
  unfold Json.filename, basedirOf.
  destruct (decide (Json.ID m = "")); rewrite !append_assoc; intros E;
    apply append_inj_l in E; discriminate E.
Qed.

(** X9: the text sink and the JSON sink of the first snapshot work on
    different files, so neither disturbs the other.  When the text
    writer does not end the process, it does not matter which of the two
    runs first: each ends the same way on the files the other left as on
    the files as they were, and the files are the same in the end. *)
Theorem text_and_json_sinks_commute (env : Env) (w : World)
    (cT cJ : list (Json.LogData * Fault)) :
  (forall code, fst (Json.writeToFile env cT w) <> Exited code) ->
  fst (Json.writeToFile env cT (snd (Json.writeJSONToFile env cJ w)))
  = fst (Json.writeToFile env cT w)
  /\ fst (Json.writeJSONToFile env cJ (snd (Json.writeToFile env cT w)))
     = fst (Json.writeJSONToFile env cJ w)
  /\ files (snd (Json.writeToFile env cT (snd (Json.writeJSONToFile env cJ w))))
     = files (snd (Json.writeJSONToFile env cJ (snd (Json.writeToFile env cT w)))).
Proof.
  intros _. to_loop.
  apply (runs_commute (Json.filename (basedirOf env "/battlesnakeLogs")) Json.Bytes fatal
           (fun _ => basedirOf env "/battlesnakeJSON" ++ "/battlesnake.json")
           Json.Marshal giveUp fatal_files fatal_status giveUp_files giveUp_status
           (fun m1 _ => text_and_json_files_apart env m1) cT cJ w).
  - apply Json_setup_spec.
  - apply Json_setup_spec.
  - apply Json_setup_spec.
  - apply Json_setup_spec.
Qed.

Lemma text_and_json_sinks_commute_witness :
  files (snd (Json.writeToFile Sample.env
                [(Sample.jsonRecord, NoFault); (Sample.jsonGeneric, WriteFails 4 "write: EIO")]
                (snd (Json.writeJSONToFile Sample.env
                        [(Sample.jsonRecord, CloseFails "close: EIO")] Sample.empty))))
  = files (snd (Json.writeJSONToFile Sample.env
                  [(Sample.jsonRecord, CloseFails "close: EIO")]
                  (snd (Json.writeToFile Sample.env
                          [(Sample.jsonRecord, NoFault);
                           (Sample.jsonGeneric, WriteFails 4 "write: EIO")]
                          Sample.empty)))).
Proof.
  apply (text_and_json_sinks_commute Sample.env Sample.empty
           [(Sample.jsonRecord, NoFault); (Sample.jsonGeneric, WriteFails 4 "write: EIO")]
           [(Sample.jsonRecord, CloseFails "close: EIO")]).
  intros code. vm_compute. discriminate.
Defined.

(** * More on the logger *)

Lemma firstMatch_lookup (m : gmap N string) (name : string) (l : N) :
  NoDup (map_to_list m).*2 ->
  firstMatch (map_to_list m) name = Some l <-> m !! l = Some name.
Proof. intros Hnd. rewrite firstMatch_Some by assumption. apply elem_of_map_to_list. Qed.

Lemma firstMatch_unknown (m : gmap N string) (name : string) :
  (forall l, m !! l <> Some name) -> firstMatch (map_to_list m) name = None.
Proof.
  intros Hno. apply firstMatch_None. intros Hin.
  apply list_elem_of_fmap in Hin as ([l v] & -> & Hin).
  apply elem_of_map_to_list in Hin. exact (Hno l Hin).
Qed.

(** X10: [NewLogger] reads the level name back through [levelMap]: for
    the name of a level it returns a logger with that level as its
    threshold; for a string that names no level, a logger with threshold
    info.  This holds in whatever order the map is visited. *)
Theorem NewLogger_resolves_level_names (i : N) :
  (forall o l name, Json.visits o ->
     (Json.levelMap !! l = Some name -> Json.level (Json.NewLogger o name i) = l)
     /\ ((forall l', Json.levelMap !! l' <> Some name) ->
         Json.level (Json.NewLogger o name i) = Json.InfoLevel))
  /\ (forall o l name, Basic.visits o ->
     (Basic.levelMap !! l = Some name -> Basic.level (Basic.NewLogger o name i) = l)
     /\ ((forall l', Basic.levelMap !! l' <> Some name) ->
         Basic.level (Basic.NewLogger o name i) = Basic.InfoLevel))
  /\ (forall o l name, Named.visits o ->
     (Named.levelMap !! l = Some name -> Named.level (Named.NewLogger o name i) = l)
     /\ ((forall l', Named.levelMap !! l' <> Some name) ->
         Named.level (Named.NewLogger o name i) = Named.InfoLevel)).
Proof.
  repeat apply conj; intros o l name Hv.
  - rewrite (Json_NewLogger_order o name i Hv). unfold Json.NewLogger.
    rewrite Json_range_firstMatch. split; intros H.
    + apply (firstMatch_lookup _ _ _ Json_names_NoDup) in H. now rewrite H.
    + now rewrite (firstMatch_unknown _ _ H).
  - rewrite (Basic_NewLogger_order o name i Hv). unfold Basic.NewLogger.
    rewrite Basic_range_firstMatch. split; intros H.
    + apply (firstMatch_lookup _ _ _ Basic_names_NoDup) in H. now rewrite H.
    + now rewrite (firstMatch_unknown _ _ H).
  - rewrite (Named_NewLogger_order o name i Hv). unfold Named.NewLogger.
    rewrite Named_range_firstMatch. split; intros H.
    + apply (firstMatch_lookup _ _ _ Named_names_NoDup) in H. now rewrite H.
    + now rewrite (firstMatch_unknown _ _ H).
Qed.

Lemma NewLogger_resolves_level_names_witness :
  Named.level (Named.NewLogger (reverse (map_to_list Named.levelMap)) "report" 3)
  = Named.ReportLevel
  /\ Json.level (Json.NewLogger (map_to_list Json.levelMap) "report" 3) = Json.InfoLevel.
Proof.
  split.
  - apply (proj1 (proj2 (proj2 (NewLogger_resolves_level_names 3))
                    (reverse (map_to_list Named.levelMap)) Named.ReportLevel "report"
                    (reverse_Permutation _))).
    reflexivity.
  - apply (proj2 (proj1 (NewLogger_resolves_level_names 3)
                    (map_to_list Json.levelMap) 0%N "report" (reflexivity _))).
    intros l' H.
    assert (Hin : (l', "report") ∈ map_to_list Json.levelMap)
      by now apply elem_of_map_to_list.
    vm_compute in Hin. repeat (apply elem_of_cons in Hin as [Hin|Hin]; [discriminate|]).
    inversion Hin.
Defined.

Lemma Json_updates_keep_level us s : Json.level (foldl JsonApply s us) = Json.level s.
Proof.
  revert s. induction us as [|u us IH]; intros s; [reflexivity|].
  simpl. rewrite IH. now destruct u.
Qed.

Lemma Basic_updates_keep_level ids s :
  Basic.level (foldl Basic.UpdateID s ids) = Basic.level s.
Proof.
  revert s. induction ids as [|u us IH]; intros s; [reflexivity|].
  simpl. now rewrite IH.
Qed.

Lemma Named_updates_keep_level us s : Named.level (foldl NamedApply s us) = Named.level s.
Proof.
  revert s. induction us as [|u us IH]; intros s; [reflexivity|].
  simpl. rewrite IH. now destruct u.
Qed.

(** X11: the context calls ([UpdateID], [UpdateFunc], [ResetFunc],
    [UpdateTurn], [UpdateName]), in any number and order, never change
    the threshold: a call is filtered out after them exactly when it was
    before, and it panics after them exactly when it did before. *)
Theorem context_updates_keep_the_filter :
  (forall us s lvl msg t,
     Json.level (foldl JsonApply s us) = Json.level s
     /\ (Json.parseLog (foldl JsonApply s us) lvl msg t = Returned
         <-> Json.parseLog s lvl msg t = Returned)
     /\ (Json.parseLog (foldl JsonApply s us) lvl msg t = Panicked
         <-> Json.parseLog s lvl msg t = Panicked))
  /\ (forall ids s lvl msg t,
     Basic.level (foldl Basic.UpdateID s ids) = Basic.level s
     /\ (Basic.parseLog (foldl Basic.UpdateID s ids) lvl msg t = Returned
         <-> Basic.parseLog s lvl msg t = Returned)
     /\ (Basic.parseLog (foldl Basic.UpdateID s ids) lvl msg t = Panicked
         <-> Basic.parseLog s lvl msg t = Panicked))
  /\ (forall us s lvl msg t,
     Named.level (foldl NamedApply s us) = Named.level s
     /\ (Named.parseLog (foldl NamedApply s us) lvl msg t = Returned
         <-> Named.parseLog s lvl msg t = Returned)
     /\ (Named.parseLog (foldl NamedApply s us) lvl msg t = Panicked
         <-> Named.parseLog s lvl msg t = Panicked)).
Proof.
  split; [|split]; intros us s lvl msg t; (split; [|split]).
  - apply Json_updates_keep_level.
  - now rewrite !Json_parseLog_returns, Json_updates_keep_level.
  - now rewrite !Json_parseLog_panics, Json_updates_keep_level.
  - apply Basic_updates_keep_level.
  - now rewrite !Basic_parseLog_returns, Basic_updates_keep_level.
  - now rewrite !Basic_parseLog_panics, Basic_updates_keep_level.
  - apply Named_updates_keep_level.
  - now rewrite !Named_parseLog_returns, Named_updates_keep_level.
  - now rewrite !Named_parseLog_panics, Named_updates_keep_level.
Qed.

Lemma context_updates_keep_the_filter_witness :
  Named.parseLog
    (foldl NamedApply Sample.namedInfo
       [NamedUpdateName "viper"; NamedUpdateTurn 12; NamedUpdateFunc "move"; NamedResetFunc])
    Named.DebugLevel "hello" Sample.now = Returned.
Proof.
  apply (proj1 (proj2 (proj2 (proj2 context_updates_keep_the_filter) _ _ _ _ _))).
  reflexivity.
Defined.

(** X12: a logger made with the level name null is mute, and stays mute
    through any context calls: every exported logging method returns
    without building or sending a record, for every message (the message
    GENERIC included, which does not panic here). *)
Theorem null_logger_is_mute (i : N) :
  (forall o us m msg t, Json.visits o ->
     Json.call m (foldl JsonApply (Json.NewLogger o "null" i) us) msg t = Returned)
  /\ (forall o ids m msg t, Basic.visits o ->
     Basic.call m (foldl Basic.UpdateID (Basic.NewLogger o "null" i) ids) msg t = Returned)
  /\ (forall o us m msg t, Named.visits o ->
     Named.call m (foldl NamedApply (Named.NewLogger o "null" i) us) msg t = Returned).
Proof.
  repeat apply conj; intros o us m msg t Hv.
  - apply Json_null_logger_mute. rewrite Json_updates_keep_level.
    rewrite (Json_NewLogger_order o "null" i Hv). reflexivity.
  - apply Basic_null_logger_mute. rewrite Basic_updates_keep_level.
    rewrite (Basic_NewLogger_order o "null" i Hv). reflexivity.
  - apply Named_null_logger_mute. rewrite Named_updates_keep_level.
    rewrite (Named_NewLogger_order o "null" i Hv). reflexivity.
Qed.

Lemma null_logger_is_mute_witness :
  Named.call Named.report
    (foldl NamedApply (Named.NewLogger (map_to_list Named.levelMap) "null" 0)
       [NamedUpdateID "abc"])
    "GENERIC" Sample.now = Returned.
Proof.
  apply (proj2 (proj2 (null_logger_is_mute 0))). unfold Named.visits. reflexivity.
Defined.

(** What [parseLog] puts in a record it sends. *)
Lemma Json_parseLog_sent s lvl msg t r :
  Json.parseLog s lvl msg t = Sent r ->
  (Json.level s <= lvl)%N
  /\ Json.Sev r = Json.levelName lvl
  /\ Json.UnixTimeStamp r = UnixNano t /\ Json.Timestamp r = Format t
  /\ Json.Turn r = Json.currentTurn s /\ Json.Function r = Json.currentFunc s
  /\ (if HasPrefix msg "GENERIC"
      then Json.ID r = "" /\ sliceFrom msg 8 = Some (Json.Msg r)
      else Json.ID r = Json.id s /\ Json.Msg r = msg).
Proof.
  unfold Json.parseLog. parse_cases (Json.level s) lvl msg; intros [= <-];
    simpl; repeat split; try assumption; reflexivity.
Qed.

Lemma Basic_parseLog_sent s lvl msg t r :
  Basic.parseLog s lvl msg t = Sent r ->
  (Basic.level s <= lvl)%N
  /\ Basic.Sev r = Basic.levelName lvl /\ Basic.Time r = t
  /\ (if HasPrefix msg "GENERIC"
      then Basic.ID r = "" /\ sliceFrom msg 8 = Some (Basic.Msg r)
      else Basic.ID r = Basic.id s /\ Basic.Msg r = msg).
Proof.
  unfold Basic.parseLog. parse_cases (Basic.level s) lvl msg; intros [= <-];
    simpl; repeat split; try assumption; reflexivity.
Qed.

Lemma Named_parseLog_sent s lvl msg t r :
  Named.parseLog s lvl msg t = Sent r ->
  (Named.level s <= lvl)%N
  /\ Named.Sev r = Named.levelName lvl
  /\ Named.UnixTimeStamp r = UnixNano t /\ Named.Timestamp r = Format t
  /\ Named.Turn r = Named.currentTurn s /\ Named.Function r = Named.currentFunc s
  /\ Named.SnakeName r = Named.name s
  /\ (if HasPrefix msg "GENERIC"
      then Named.ID r = "" /\ sliceFrom msg 8 = Some (Named.Msg r)
      else Named.ID r = Named.id s /\ Named.Msg r = msg).
Proof.
  unfold Named.parseLog. parse_cases (Named.level s) lvl msg; intros [= <-];
    simpl; repeat split; try assumption; reflexivity.
Qed.

(** X13: the severity a record carries is the name of the method's
    level: debug, info or error in the first two snapshots, and also
    warn or report in the third.  No record carries the name null or an
    empty severity. *)
Theorem sent_records_name_their_severity :
  (forall m s msg t r, Json.call m s msg t = Sent r ->
     Json.Sev r = Json.levelName (Json.severity m)
     /\ In (Json.Sev r) ["debug"; "info"; "error"]
     /\ Json.Sev r <> "null" /\ Json.Sev r <> "")
  /\ (forall m s msg t r, Basic.call m s msg t = Sent r ->
     Basic.Sev r = Basic.levelName (Basic.severity m)
     /\ In (Basic.Sev r) ["debug"; "info"; "error"]
     /\ Basic.Sev r <> "null" /\ Basic.Sev r <> "")
  /\ (forall m s msg t r, Named.call m s msg t = Sent r ->
     Named.Sev r = Named.levelName (Named.severity m)
     /\ In (Named.Sev r) ["debug"; "info"; "warn"; "error"; "report"]
     /\ Named.Sev r <> "null" /\ Named.Sev r <> "").
Proof.
  split; [|split]; intros m s msg t r H.
  - rewrite Json_call_parseLog in H. apply Json_parseLog_sent in H as (_ & -> & _).
    destruct m; vm_compute; repeat split; try discriminate; tauto.
  - rewrite Basic_call_parseLog in H. apply Basic_parseLog_sent in H as (_ & -> & _).
    destruct m; vm_compute; repeat split; try discriminate; tauto.
  - rewrite Named_call_parseLog in H. apply Named_parseLog_sent in H as (_ & -> & _).
    destruct m; vm_compute; repeat split; try discriminate; tauto.
Qed.

Lemma sent_records_name_their_severity_witness :
  exists r, Named.call Named.warnf Sample.namedInfo "low on space" Sample.now = Sent r
            /\ Named.Sev r = "warn".
Proof.
  eexists. split; [reflexivity|].
  exact (proj1 (proj2 (proj2 sent_records_name_their_severity)
                  Named.warnf Sample.namedInfo "low on space" Sample.now _ eq_refl)).
Defined.

(** X14: lowering the threshold loses nothing.  A call that sends a
    record under a threshold sends the very same record under any lower
    threshold. *)
Theorem lower_threshold_keeps_every_record (l1 l2 : N) :
  (l1 <= l2)%N ->
  (forall s lvl msg t r,
     Json.parseLog (Json.updateLogLevel s l2) lvl msg t = Sent r ->
     Json.parseLog (Json.updateLogLevel s l1) lvl msg t = Sent r)
  /\ (forall s lvl msg t r,
     Basic.parseLog (Basic.updateLogLevel s l2) lvl msg t = Sent r ->
     Basic.parseLog (Basic.updateLogLevel s l1) lvl msg t = Sent r)
  /\ (forall s lvl msg t r,
     Named.parseLog (Named.updateLogLevel s l2) lvl msg t = Sent r ->
     Named.parseLog (Named.updateLogLevel s l1) lvl msg t = Sent r).
Proof.
  intros Hle. split; [|split]; intros s lvl msg t r.
  - unfold Json.parseLog. simpl.
    destruct (N.ltb_spec lvl l2); [discriminate|].
    destruct (N.ltb_spec lvl l1); [lia | tauto].
  - unfold Basic.parseLog. simpl.
    destruct (N.ltb_spec lvl l2); [discriminate|].
    destruct (N.ltb_spec lvl l1); [lia | tauto].
  - unfold Named.parseLog. simpl.
    destruct (N.ltb_spec lvl l2); [discriminate|].
    destruct (N.ltb_spec lvl l1); [lia | tauto].
Qed.

Lemma lower_threshold_keeps_every_record_witness :
  exists r,
    Json.parseLog (Json.updateLogLevel Sample.jsonInfo Json.DebugLevel)
      Json.ErrorLevel "boom" Sample.now = Sent r.
Proof.
  eexists.
  apply (proj1 (lower_threshold_keeps_every_record Json.DebugLevel Json.WarnLevel
                  (N.le_0_l _))).
  reflexivity.
Defined.

(** * From the call to the file *)



(** X16: under name-based routing the logger's snake name alone picks
    the file.  A message that starts with GENERIC still loses its first
    8 bytes and its ID, but the line goes to the same file as any other
    message of that logger: <name>.log inside the base directory for a
    named logger. *)
Theorem call_to_file_by_name (env : Env) (w : World) :
  forall s lvl msg t r pre io,
    Named.parseLog s lvl msg t = Sent r -> quiet pre -> survivable io = true ->
    Named.filename (basedirOf env "/battlesnakeLogs") r
    = (if decide (Named.name s = "")
       then basedirOf env "/battlesnakeLogs" ++ "generic.log"
       else basedirOf env "/battlesnakeLogs" ++ "/" ++ Named.name s ++ ".log")
    /\ exists text,
       (if HasPrefix msg "GENERIC" then sliceFrom msg 8 = Some text else text = msg)
       /\ files (snd (Named.writeToFile env (pre ++ [(r, io)]) w))
            !! Named.filename (basedirOf env "/battlesnakeLogs") r
          = Some (content (snd (Named.writeToFile env pre w))
                    (Named.filename (basedirOf env "/battlesnakeLogs") r)
                  ++ Format t ++ " "
                  ++ (if HasPrefix msg "GENERIC" then "" else Named.id s)
                  ++ " (" ++ FormatInt (Named.currentTurn s) ++ ") <"
                  ++ Named.currentFunc s ++ "> [" ++ Named.levelName lvl ++ "] "
                  ++ text ++ " " ++ String GoJSON.newline "").
Proof.
  intros s lvl msg t r pre io Hsent Hq Hio.
  apply Named_parseLog_sent in Hsent
    as (_ & Hsev & _ & Hstamp & Hturn & Hfunc & Hname & Hmsg).
  split.
  - unfold Named.filename. now rewrite Hname.
  - exists (Named.Msg r). split.
    + destruct (HasPrefix msg "GENERIC"); tauto.
    + to_loop. rewrite sinkLoop_next by assumption. cbn [snd]. rewrite handled_target.
      unfold Named.Bytes, Named.LogData_String.
      rewrite Hsev, Hstamp, Hturn, Hfunc.
      now destruct (HasPrefix msg "GENERIC"); destruct Hmsg as [-> _].
Qed.

Lemma call_to_file_by_name_witness :
  Named.filename (basedirOf Sample.env "/battlesnakeLogs")
    {| Named.ID := ""; Named.Sev := "error"; Named.Msg := " lost";
       Named.Timestamp := "2023-11-14T22:13:20.123456789";
       Named.UnixTimeStamp := 1700000000123456789;
       Named.Turn := 0; Named.Function := ""; Named.SnakeName := "viper" |}
  = "/home/snake/battlesnakeLogs/viper.log".
Proof.
  refine (proj1 (call_to_file_by_name Sample.env Sample.empty
                   (Named.UpdateName Sample.namedInfo "viper") Named.ErrorLevel
                   "GENERIC: lost" Sample.now _ [] NoFault _ _ _)).
  - reflexivity.
  - constructor.
  - reflexivity.
Defined.

(** * Lines *)

(** X17: the text sinks write the fields as they are.  A line ends in a
    newline, and what comes before holds a newline exactly when one of
    the string fields printed does: a message with a newline in it
    spreads over several lines of the log. *)
Theorem text_line_newlines :
  (forall l : Json.LogData,
     exists body, Json.Bytes l = body ++ String GoJSON.newline ""
       /\ occurs GoJSON.newline body
          = occurs GoJSON.newline (Json.Sev l) || occurs GoJSON.newline (Json.Msg l))
  /\ (forall l : Basic.LogData,
     exists body, Basic.Bytes l = body ++ String GoJSON.newline ""
       /\ occurs GoJSON.newline body
          = occurs GoJSON.newline (Basic.Sev l) || occurs GoJSON.newline (Basic.Msg l))
  /\ (forall l : Named.LogData,
     exists body, Named.Bytes l = body ++ String GoJSON.newline ""
       /\ occurs GoJSON.newline body
          = occurs GoJSON.newline (Named.Timestamp l) || occurs GoJSON.newline (Named.ID l)
            || occurs GoJSON.newline (Named.Function l)
            || occurs GoJSON.newline (Named.Sev l) || occurs GoJSON.newline (Named.Msg l)).
Proof.
  split; [|split]; intros l.
  - exists (FormatInt (Json.UnixTimeStamp l) ++ " [" ++ Json.Sev l ++ "] " ++ Json.Msg l ++ " ").
    split.
    + unfold Json.Bytes, Json.LogData_String. now rewrite !append_assoc.
    + rewrite !occurs_app, FormatInt_no_newline. simpl.
      now rewrite !orb_false_r.
  - exists (FormatInt (Basic.Time l) ++ " [" ++ Basic.Sev l ++ "] " ++ Basic.Msg l ++ " ").
    split.
    + unfold Basic.Bytes, Basic.LogData_String. now rewrite !append_assoc.
    + rewrite !occurs_app, FormatInt_no_newline. simpl.
      now rewrite !orb_false_r.
  - exists (Named.Timestamp l ++ " " ++ Named.ID l ++ " (" ++ FormatInt (Named.Turn l)
            ++ ") <" ++ Named.Function l ++ "> [" ++ Named.Sev l ++ "] "
            ++ Named.Msg l ++ " ").
    split.
    + unfold Named.Bytes, Named.LogData_String. now rewrite !append_assoc.
    + rewrite !occurs_app, FormatInt_no_newline. simpl.
      rewrite !orb_false_r. now rewrite !orb_assoc.
Qed.

(** * Context that sticks *)

Lemma Named_id_kept us s :
  Forall (fun u => keepsID u = true) us -> Named.id (foldl NamedApply s us) = Named.id s.
Proof.
  intros H. revert s. induction H as [|u us Hu _ IH]; intros s; [reflexivity|].
  simpl. rewrite IH. now destruct u.
Qed.

Lemma Named_func_kept us s :
  Forall (fun u => keepsFunc u = true) us ->
  Named.currentFunc (foldl NamedApply s us) = Named.currentFunc s.
Proof.
  intros H. revert s. induction H as [|u us Hu _ IH]; intros s; [reflexivity|].
  simpl. rewrite IH. now destruct u.
Qed.

(** X18: context sticks until it is set again.  After [UpdateID x] and
    any further context calls other than [UpdateID], a call that passes
    the filter with a message that does not start with GENERIC sends a
    record with ID x and the message unchanged; after [ResetFunc] and
    any further calls other than [UpdateFunc] and [ResetFunc], the
    record's Function is empty. *)
Theorem context_sticks (s : Named.SnakeLogger) (before after : list NamedUpdate)
    (lvl : N) (msg : string) (t : Time) :
  (Named.level s <= lvl)%N -> HasPrefix msg "GENERIC" = false ->
  (forall x, Forall (fun u => keepsID u = true) after ->
     exists r,
       Named.parseLog (foldl NamedApply s (before ++ NamedUpdateID x :: after)) lvl msg t
       = Sent r
       /\ Named.ID r = x /\ Named.Msg r = msg)
  /\ (Forall (fun u => keepsFunc u = true) after ->
     exists r,
       Named.parseLog (foldl NamedApply s (before ++ NamedResetFunc :: after)) lvl msg t
       = Sent r
       /\ Named.Function r = "" /\ Named.Msg r = msg).
Proof.
  intros Hle Hpre. split.
  - intros x Hafter.
    assert (Hne : msg <> "GENERIC") by (intros ->; discriminate Hpre).
    destruct (proj2 (Named_parseLog_sends
                       (foldl NamedApply s (before ++ NamedUpdateID x :: after)) lvl msg t Hne))
      as [r Hr]; [now rewrite Named_updates_keep_level|].
    exists r. split; [exact Hr|].
    apply Named_parseLog_sent in Hr as (_ & _ & _ & _ & _ & _ & _ & Hmsg).
    rewrite Hpre in Hmsg. destruct Hmsg as [-> ->].
    rewrite foldl_app. simpl. now rewrite Named_id_kept.
  - intros Hafter.
    assert (Hne : msg <> "GENERIC") by (intros ->; discriminate Hpre).
    destruct (proj2 (Named_parseLog_sends
                       (foldl NamedApply s (before ++ NamedResetFunc :: after)) lvl msg t Hne))
      as [r Hr]; [now rewrite Named_updates_keep_level|].
    exists r. split; [exact Hr|].
    apply Named_parseLog_sent in Hr as (_ & _ & _ & _ & _ & Hf & _ & Hmsg).
    rewrite Hpre in Hmsg. destruct Hmsg as [_ ->]. rewrite Hf.
    rewrite foldl_app. simpl. now rewrite Named_func_kept.
Qed.

Lemma context_sticks_witness :
  exists r,
    Named.parseLog
      (foldl NamedApply Sample.namedInfo
         ([NamedUpdateFunc "move"] ++ NamedUpdateID "game-7"
            :: [NamedUpdateTurn 4; NamedUpdateName "viper"]))
      Named.ErrorLevel "boom" Sample.now = Sent r
    /\ Named.ID r = "game-7" /\ Named.Msg r = "boom".
Proof.
  refine (proj1 (context_sticks Sample.namedInfo [NamedUpdateFunc "move"]
                   [NamedUpdateTurn 4; NamedUpdateName "viper"]
                   Named.ErrorLevel "boom" Sample.now _ _) "game-7" _).
  - vm_compute. discriminate.
  - reflexivity.
  - repeat constructor.
Defined.

(** * When the process ends *)
Section Exits.

Context {R : Type}.
Variable route : R -> string.
Variable bytes : R -> string.
Variable openFailed : string -> World -> Status * World.

Local Abbreviation run := (sinkLoop route bytes openFailed).

(** The deliveries up to the first open or write failure, if there is
    one. *)
Lemma first_fault (c : list (R * Fault)) :
  quiet c
  \/ exists pre m io rest,
       quiet pre /\ survivable io = false /\ c = (pre ++ (m, io) :: rest)%list.
Proof.
  induction c as [|[m io] c IH]; [left; constructor|].
  destruct (survivable io) eqn:Hio.
  - destruct IH as [Hq|(pre & m' & io' & rest & Hq & Hio' & ->)].
    + left. now constructor.
    + right. exists ((m, io) :: pre), m', io', rest.
      repeat split; [now constructor | assumption].
  - right. exists [], m, io, c. repeat split; [constructor | assumption].
Qed.

Lemma run_stderr c w :
  (forall err w0, stderr (snd (openFailed err w0)) = stderr w0) ->
  stderr (snd (run c w)) = stderr w.
Proof.
  intros Hopen. revert w. induction c as [|[m io] c IH]; intros w; [reflexivity|].
  destruct io; simpl; rewrite ?IH, ?Hopen; reflexivity.
Qed.

End Exits.

Lemma text_exit_iff {R : Type} (route bytes : R -> string) c w code :
  fst (sinkLoop route bytes fatal c w) = Exited code
  <-> code = 1%Z
      /\ exists pre m err rest, quiet pre /\ c = (pre ++ (m, OpenFails err) :: rest)%list.
Proof.
  split.
  - intros H. destruct (first_fault c) as [Hq|(pre & m & io & rest & Hq & Hio & ->)].
    + apply (run_blocked_iff route bytes fatal fatal_ends c w) in Hq. congruence.
    + destruct io; try discriminate.
      * rewrite sinkLoop_open_fails in H by assumption. injection H as <-.
        split; [reflexivity | eauto 6].
      * destruct (run_write_fails route bytes fatal pre m n err rest w Hq) as [Hf _].
        congruence.
  - intros (-> & pre & m & err & rest & Hq & ->).
    now rewrite sinkLoop_open_fails.
Qed.

Lemma json_never_exits {R : Type} (route bytes : R -> string) c w code :
  fst (sinkLoop route bytes giveUp c w) <> Exited code.
Proof.
  intros H. destruct (first_fault c) as [Hq|(pre & m & io & rest & Hq & Hio & ->)].
  - apply (run_blocked_iff route bytes giveUp giveUp_ends c w) in Hq. congruence.
  - destruct io; try discriminate.
    + rewrite sinkLoop_open_fails in H by assumption. discriminate.
    + destruct (run_write_fails route bytes giveUp pre m n err rest w Hq) as [Hf _].
      congruence.
Qed.

(** X19: a text writer ends the process in one case only, with status 1:
    the first record to meet an open or write failure met an open
    failure.  The JSON writer never ends the process and never writes to
    standard error. *)
Theorem process_exits_only_on_text_open_failure (env : Env) (w : World) :
  (forall c code,
     fst (Json.writeToFile env c w) = Exited code
     <-> code = 1%Z
         /\ exists pre m err rest,
              quiet pre /\ c = (pre ++ (m, OpenFails err) :: rest)%list)
  /\ (forall c code,
     fst (Basic.writeToFile env c w) = Exited code
     <-> code = 1%Z
         /\ exists pre m err rest,
              quiet pre /\ c = (pre ++ (m, OpenFails err) :: rest)%list)
  /\ (forall c code,
     fst (Named.writeToFile env c w) = Exited code
     <-> code = 1%Z
         /\ exists pre m err rest,
              quiet pre /\ c = (pre ++ (m, OpenFails err) :: rest)%list)
  /\ (forall c code, fst (Json.writeJSONToFile env c w) <> Exited code)
  /\ (forall c, stderr (snd (Json.writeJSONToFile env c w)) = stderr w).
Proof.
  repeat apply conj; intros c; try intros code; to_loop.
  - apply text_exit_iff.
  - apply text_exit_iff.
  - apply text_exit_iff.
  - apply json_never_exits.
  - rewrite run_stderr by reflexivity. unfold Json.setup.
    destruct (decide (HOME env = "")); destruct (mkdir env); reflexivity.
Qed.

Lemma process_exits_only_on_text_open_failure_witness :
  fst (Named.writeToFile Sample.env
         [(Sample.namedGeneric, CloseFails "close: EIO");
          (Sample.namedGeneric, OpenFails "open: permission denied");
          (Sample.namedGeneric, WriteFails 0 "write: EIO")] Sample.empty)
  = Exited 1.
Proof.
  apply (proj2 (proj1 (proj2 (proj2 (process_exits_only_on_text_open_failure
                                       Sample.env Sample.empty))) _ _)).
  split; [reflexivity|].
  exists [(Sample.namedGeneric, CloseFails "close: EIO")], Sample.namedGeneric,
    "open: permission denied", [(Sample.namedGeneric, WriteFails 0 "write: EIO")].
  split; [repeat constructor | reflexivity].
Defined.
